(** * Nerd kernel: a shallow embedding of src/unnamed/part_000 (nerd.c)

    The arena, the object registry and GC list, the built-in string type,
    the lexical analyser and the reader/evaluator ([NeRun]) are translated
    function by function.  Source bytes are C [char]s, i.e. signed 8-bit
    values, kept as [Z].  Loops of the C code that stop at the end of the
    input are written as fixpoints over a fuel bound of the input length;
    a fuel-exhausted run is reported as [None] and never happens for the
    bounds used here. *)

From Stdlib Require Import ZArith List String Ascii Bool Lia.
Import ListNotations.
Open Scope Z_scope.

(* ------------------------------------------------------------------ *)
(** ** Bytes and C characters *)

(** The value of an ASCII character as a C [char]. *)
Definition chr (a : ascii) : Z := Z.of_N (N_of_ascii a).

(** A byte read through a (signed) [char]. *)
Definition schar (a : ascii) : Z :=
  let n := chr a in if n >=? 128 then n - 256 else n.

Definition bytes_of_string (s : string) : list Z :=
  map schar (list_ascii_of_string s).

(** Conversion of an [int] back to a signed [char] (two's complement). *)
Definition to_s8 (z : Z) : Z :=
  let m := z mod 256 in if m >=? 128 then m - 256 else m.

(** Signed 64-bit wrap-around of [i64] arithmetic. *)
Definition to_s64 (z : Z) : Z :=
  let m := z mod 2 ^ 64 in if m >=? 2 ^ 63 then m - 2 ^ 64 else m.

(** Signed 32-bit wrap-around: an [int] conversion. *)
Definition to_s32 (z : Z) : Z :=
  let m := z mod 2 ^ 32 in if m >=? 2 ^ 31 then m - 2 ^ 32 else m.

(** The double-quote character. *)
Definition QUOTE : Z := 34.

Definition is_digit (c : Z) : bool := (chr "0" <=? c) && (c <=? chr "9").

(** [NE_IS_WHITESPACE], [NE_IS_CLOSE_PAREN], [NE_IS_TERMCHAR]. *)
Definition NE_IS_WHITESPACE (c : Z) : bool :=
  (c =? chr " ") || (c =? 9) || (c =? 10).

Definition NE_IS_CLOSE_PAREN (c : Z) : bool :=
  (c =? chr ")") || (c =? chr "]") || (c =? chr "}").

Definition NE_IS_TERMCHAR (c : Z) : bool :=
  NE_IS_WHITESPACE c || NE_IS_CLOSE_PAREN c || (c =? chr ":")
  || (c =? chr "\") || (c =? 0).

(* ------------------------------------------------------------------ *)
(** ** Atoms *)

(** [Atom]: the tagged union of nerd.h.  An object atom refers to a GC
    object by its identity (the address of its header in C). *)
Inductive Atom :=
| ANil
| AInteger (i : Z)
| ABoolean (i : Z)
| ACharacter (c : Z)
| AObject (obj : nat).

Definition NeMakeNil : Atom := ANil.
Definition NeMakeInt (i : Z) : Atom := AInteger i.
Definition NeMakeBool (b : bool) : Atom := ABoolean (if b then 1 else 0).
Definition NeMakeChar (c : Z) : Atom := ACharacter c.

(* ------------------------------------------------------------------ *)
(** ** Lexical analysis: tokens and lexer state *)

Inductive NeToken :=
| NeToken_Unknown
| NeToken_Error
| NeToken_EOF
| NeToken_Number
| NeToken_Symbol
| NeToken_Character
| NeToken_String
| NeToken_Nil
| NeToken_Yes
| NeToken_No.

(** Numeric values of the enumeration (used by the packed keyword table). *)
Definition NeToken_KEYWORDS : Z := 5.

Definition keyword_token (index : Z) : NeToken :=
  match index with
  | 0 => NeToken_Nil
  | 1 => NeToken_Yes
  | 2 => NeToken_No
  | _ => NeToken_Unknown
  end.

(** [NeLexInfo]: span (offsets into the source), line, kind, atom. *)
Record NeLexInfo := mkLexInfo {
  li_start : nat;
  li_end : nat;
  li_line : Z;
  li_token : NeToken;
  li_atom : Atom
}.

(** [NeLex]; [end] is the length of the source list. *)
Record NeLex := mkLex {
  line : Z;
  lastLine : Z;
  cursor : nat;
  lastCursor : nat
}.

Section Lexer.

Variable src : list Z.

Definition byte_at (i : nat) : Z := nth i src 0.
Definition src_end : nat := List.length src.

(** [nextChar]: newline normalisation ([\r], [\n], [\r\n] give one [\n]). *)
Definition nextChar (L : NeLex) : Z * NeLex :=
  let L1 := mkLex (line L) (line L) (cursor L) (cursor L) in
  if Nat.eqb (cursor L) src_end then (0, L1)
  else
    let c := byte_at (cursor L) in
    let cur := S (cursor L) in
    if (c =? 13) || (c =? 10) then
      let cur' := if (c =? 13) && Nat.ltb cur src_end && (byte_at cur =? 10)
                  then S cur else cur in
      (10, mkLex (line L + 1) (line L) cur' (cursor L))
    else (c, mkLex (line L) (line L) cur (cursor L)).

Definition ungetChar (L : NeLex) : NeLex :=
  mkLex (lastLine L) (lastLine L) (lastCursor L) (lastCursor L).

End Lexer.

(** Option bind, used to thread the fuel-exhaustion outcome. *)
Definition obind {A B : Type} (x : option A) (f : A -> option B) : option B :=
  match x with Some a => f a | None => None end.

Notation "'let*' p := x 'in' e" := (obind x (fun p => e))
  (at level 200, p pattern, x at level 100, e at level 200).

(** [gNameChar]: 0 = not in a name, 1 = in a name, 2 = in a name but not
    first.  A negative [char] would index before the table (undefined in C);
    it is read as 0 here. *)
Definition gNameChar_table : list Z :=
  [ 0;0;0;0;0;0;0;0;0;0;0;0;0;0;0;0;
    0;0;0;0;0;0;0;0;0;0;0;0;0;0;0;0;
    0;1;0;1;1;1;1;0;0;0;1;1;0;1;0;1;
    2;2;2;2;2;2;2;2;2;2;0;0;1;1;1;1;
    1;1;1;1;1;1;1;1;1;1;1;1;1;1;1;1;
    1;1;1;1;1;1;1;1;1;1;1;0;0;0;1;1;
    0;1;1;1;1;1;1;1;1;1;1;1;1;1;1;1;
    1;1;1;1;1;1;1;1;1;1;1;0;1;0;1;0 ].

Definition gNameChar (c : Z) : Z :=
  if (0 <=? c) && (c <? 128) then nth (Z.to_nat c) gNameChar_table 0 else 0.

(** [gKeyWordHashes]: packed candidate token ids per hash bucket. *)
Definition gKeyWordHashes : list Z :=
  [ 6; 0; 0; 0; 0; 0; 0; 0; 0; 0; 7; 0; 5; 0; 0; 0 ].

(** [gKeywords]: length digit followed by the keyword. *)
Definition gKeywords : list (list Z) :=
  [ bytes_of_string "3nil"; bytes_of_string "3yes"; bytes_of_string "2no" ].

(** [gCharMap]: named characters ("5\space" etc.). *)
Definition gCharMap : list (list Z * Z) :=
  [ (bytes_of_string "5\space", 32);
    (bytes_of_string "9\backspace", 8);
    (bytes_of_string "3\tab", 9);
    (bytes_of_string "7\newline", 10);
    (bytes_of_string "6\return", 13);
    (bytes_of_string "4\bell", 7);
    (bytes_of_string "3\esc", 27) ].

(** [hash]: 64-bit FNV-1a; [h ^= *s] sign-extends the [char]. *)
Definition fnv_offset : Z := 14695981039346656037.
Definition fnv_prime : Z := 1099511628211.

Definition hash (bs : list Z) : Z :=
  fold_left (fun h c => (Z.lxor h (c mod 2 ^ 64) * fnv_prime) mod 2 ^ 64)
            bs fnv_offset.

(** [strncmp(a, b, n) == 0]; bytes past the end of a list read as NUL. *)
Fixpoint strncmp_eq (a b : list Z) (n : nat) : bool :=
  match n with
  | O => true
  | S n' =>
      let x := nth 0 a 0 in
      let y := nth 0 b 0 in
      if negb (x =? y) then false
      else if x =? 0 then true
      else strncmp_eq (tl a) (tl b) n'
  end.

(** Result of one call of [lexNext]: a built token, end of stream, or a
    lex error with its message (reported through [lexError]). *)
Inductive LexStep :=
| StepTok (t : NeLexInfo) (L : NeLex)
| StepEOF (L : NeLex)
| StepErr (msg : string) (L : NeLex).

Section LexNext.

Variable src : list Z.
Variable fuel : nat.

(** [while ((c != 0) && (c != '\n')) c = nextChar(L);] *)
Fixpoint skip_line (f : nat) (c : Z) (L : NeLex) : option (Z * NeLex) :=
  match f with
  | O => None
  | S f' =>
      if (c =? 0) || (c =? 10) then Some (c, L)
      else let (c', L') := nextChar src L in skip_line f' c' L'
  end.

(** The nestable [#| ... |#] comment loop. *)
Fixpoint block_comment (f : nat) (depth c : Z) (L : NeLex)
  : option (Z * NeLex) :=
  match f with
  | O => None
  | S f' =>
      if (c =? 0) || (depth =? 0) then Some (c, L)
      else
        let (c1, L1) := nextChar src L in
        if c1 =? chr "#" then
          let (c2, L2) := nextChar src L1 in
          block_comment f' (if c2 =? chr "|" then depth + 1 else depth) c2 L2
        else if c1 =? chr "|" then
          let (c2, L2) := nextChar src L1 in
          block_comment f' (if c2 =? chr "#" then depth - 1 else depth) c2 L2
        else block_comment f' depth c1 L1
  end.

(** The [for (;;)] loop of [lexNext] skipping whitespace and comments. *)
Fixpoint skip_trivia (f : nat) (c : Z) (L : NeLex) : option (Z * NeLex) :=
  match f with
  | O => None
  | S f' =>
      if c =? 0 then Some (c, L)
      else if NE_IS_WHITESPACE c then
        let (c', L') := nextChar src L in skip_trivia f' c' L'
      else if c =? chr ";" then
        let* (c', L') := skip_line fuel c L in skip_trivia f' c' L'
      else if c =? chr "#" then
        let (c1, L1) := nextChar src L in
        if c1 =? chr "|" then
          let* (c', L') := block_comment fuel 1 c1 L1 in skip_trivia f' c' L'
        else if NE_IS_WHITESPACE c1 then
          let* (c', L') := skip_line fuel c1 L1 in skip_trivia f' c' L'
        else
          (* Possible prefix character. *)
          skip_trivia f' c1 L1
      else Some (c, L)
  end.

End LexNext.

Section LexTokens.

Variable src : list Z.
Variable fuel : nat.

(** State 2 of the number machine: [intPart = intPart * base + (c - '0')],
    fetch the next character, stay while it is a digit. *)
Fixpoint number_digits (f : nat) (c intPart : Z) (L : NeLex)
  : option (Z * NeLex) :=
  match f with
  | O => None
  | S f' =>
      let ip := to_s64 (intPart * 10 + (c - chr "0")) in
      let (c', L') := nextChar src L in
      if is_digit c' then number_digits f' c' ip L' else Some (ip, L')
  end.

(** The number state machine (states 0, 1, 2 and the terminal 100). *)
Definition lexNumber (s0 : nat) (c : Z) (L : NeLex) : option LexStep :=
  let '(sign, c1, L1) :=
    if is_digit c then (1, c, L)                         (* START -> 2 *)
    else let (c', L') := nextChar src L in               (* START -> 1 -> 2 *)
         (if c =? chr "-" then -1 else 1, c', L') in
  let* (ip, L2) := number_digits fuel c1 0 L1 in
  let L3 := ungetChar L2 in
  Some (StepTok (mkLexInfo s0 (cursor L3) (line L3) NeToken_Number
                   (NeMakeInt (to_s64 (sign * ip)))) L3).

(** [while (gNameChar[c]) c = nextChar(L);] *)
Fixpoint name_chars (f : nat) (c : Z) (L : NeLex) : option (Z * NeLex) :=
  match f with
  | O => None
  | S f' =>
      if gNameChar c =? 0 then Some (c, L)
      else let (c', L') := nextChar src L in name_chars f' c' L'
  end.

(** Walk the packed candidate list of a hash bucket.  The table entries
    are 32-bit, so four bytes exhaust it. *)
Fixpoint keyword_candidates (n : nat) (tokens : Z) (span : list Z)
  : option Z :=
  match n with
  | O => None
  | S n' =>
      if tokens =? 0 then None
      else
        let index := Z.land tokens 255 - NeToken_KEYWORDS in
        let tokens' := Z.shiftr tokens 8 in
        let kw := nth (Z.to_nat index) gKeywords [] in
        if (nth 0 kw 0 - chr "0" =? Z.of_nat (List.length span))
           && strncmp_eq span (tl kw) (List.length span)
        then Some index
        else keyword_candidates n' tokens' span
  end.

Definition lexName (s0 : nat) (c : Z) (L : NeLex) : option LexStep :=
  let* (_, L1) := name_chars fuel c L in
  let L2 := ungetChar L1 in
  let span := firstn (cursor L2 - s0) (skipn s0 src) in
  let h := hash span in
  let tokens := nth (Z.to_nat (Z.land h 15)) gKeyWordHashes 0 in
  match keyword_candidates 4 tokens span with
  | Some index =>
      Some (StepTok (mkLexInfo s0 (cursor L2) (line L2)
                       (keyword_token index) NeMakeNil) L2)
  | None => Some (StepErr "Symbols not implemented yet!" L2)
  end.

(** [while ((c != 0) && (c != '\n') && (c != QUOTE)) c = nextChar(L);] *)
Fixpoint string_chars (f : nat) (c : Z) (L : NeLex) : option (Z * NeLex) :=
  match f with
  | O => None
  | S f' =>
      if (c =? 0) || (c =? 10) || (c =? QUOTE) then Some (c, L)
      else let (c', L') := nextChar src L in string_chars f' c' L'
  end.

Definition lexString (L : NeLex) : option LexStep :=
  let s0 := cursor L in
  let (c, L1) := nextChar src L in
  let* (c', L2) := string_chars fuel c L1 in
  if c' =? QUOTE then
    Some (StepTok (mkLexInfo s0 (cursor L2 - 1) (line L2) NeToken_String
                     NeMakeNil) L2)
  else Some (StepErr "Unterminated string." L2).

End LexTokens.

(** Outcome of the hexadecimal loop of a [\#x..] character literal. *)
Inductive HexOut :=
| HexDone (c ch : Z) (L : NeLex)
| HexTooMany (L : NeLex).

Section LexCharacter.

Variable src : list Z.
Variable fuel : nat.

(** [(c > '0' && c <= '9') || (c >= 'a' && c <= 'f') || (c >= 'A' && c <= 'F')] *)
Definition hex_loop_cond (c : Z) : bool :=
  ((chr "0" <? c) && (c <=? chr "9"))
  || ((chr "a" <=? c) && (c <=? chr "f"))
  || ((chr "A" <=? c) && (c <=? chr "F")).

Definition hex_value (c : Z) : Z :=
  if (chr "0" <=? c) && (c <=? chr "9") then c - chr "0"
  else if (chr "a" <=? c) && (c <=? chr "f") then c - chr "a" + 10
  else c - chr "A" + 10.

(** The [while] loop after [\#x]: [ch <<= 4; ch += digit;] and the
    [--maxNumChars < 0] check. *)
Fixpoint hex_loop (f : nat) (ch maxNumChars : Z) (L : NeLex)
  : option HexOut :=
  match f with
  | O => None
  | S f' =>
      let (c, L1) := nextChar src L in
      if hex_loop_cond c then
        let ch' := to_s8 (to_s8 (ch * 16) + hex_value c) in
        if maxNumChars - 1 <? 0 then Some (HexTooMany L1)
        else hex_loop f' ch' (maxNumChars - 1) L1
      else Some (HexDone c ch L1)
  end.

(** The decimal loop after [\#d]: [ch *= 10; ch += c - '0';]. *)
Fixpoint dec_loop (f : nat) (ch : Z) (L : NeLex) : option (Z * Z * NeLex) :=
  match f with
  | O => None
  | S f' =>
      let (c, L1) := nextChar src L in
      if is_digit c then dec_loop f' (to_s8 (to_s8 (ch * 10) + (c - chr "0"))) L1
      else Some (c, ch, L1)
  end.

(** [while (!NE_IS_TERMCHAR(c)) { if (c < 'a' || c > 'z') error; c = nextChar(L); }]
    ([inl]: the terminator reached, [inr]: the error state). *)
Fixpoint long_name (f : nat) (c : Z) (L : NeLex)
  : option ((Z * NeLex) + NeLex) :=
  match f with
  | O => None
  | S f' =>
      if NE_IS_TERMCHAR c then Some (inl (c, L))
      else if (c <? chr "a") || (chr "z" <? c) then Some (inr L)
      else let (c', L') := nextChar src L in long_name f' c' L'
  end.

Definition charTok (s0 : nat) (L : NeLex) (ch : Z) : LexStep :=
  StepTok (mkLexInfo s0 (cursor L) (line L) NeToken_Character (NeMakeChar ch)) L.

(** The [for] loop over [gCharMap]. *)
Fixpoint char_map_lookup (m : list (list Z * Z)) (tokenLen : nat) (s : list Z)
  : option Z :=
  match m with
  | [] => None
  | (name, ch) :: m' =>
      if (nth 0 name 0 - chr "0" + 1 =? Z.of_nat tokenLen)
         && strncmp_eq (tl name) s tokenLen
      then Some ch
      else char_map_lookup m' tokenLen s
  end.

(** Shared tail of the character branch: [c = nextChar(L)] onwards. *)
Definition lexCharTail (s0 : nat) (ch : Z) (L : NeLex) : option LexStep :=
  let (c, L1) := nextChar src L in
  if NE_IS_TERMCHAR c then Some (charTok s0 (ungetChar L1) ch)
  else
    let* r := long_name fuel c L1 in
    match r with
    | inr Le => Some (StepErr "Unknown character token." Le)
    | inl (_, L2) =>
        let L3 := ungetChar L2 in
        let tokenLen := (cursor L3 - s0)%nat in
        match char_map_lookup gCharMap tokenLen (skipn s0 src) with
        | Some ch' => Some (charTok s0 L3 ch')
        | None => Some (StepErr "Unknown character token." L3)
        end
    end.

Definition lexCharacter (s0 : nat) (L : NeLex) : option LexStep :=
  let (c, L1) := nextChar src L in
  if (c =? 0) || NE_IS_WHITESPACE c then
    Some (StepErr "Invalid character token." L1)
  else if c =? chr "#" then
    let (c2, L2) := nextChar src L1 in
    if NE_IS_TERMCHAR c2 || (c2 =? chr "#") then
      Some (charTok s0 (ungetChar L2) (chr "#"))
    else if c2 =? chr "x" then
      let* h := hex_loop fuel 0 2 L2 in
      match h with
      | HexTooMany Le => Some (StepErr "Unknown character token." Le)
      | HexDone c3 ch L3 =>
          if negb (NE_IS_TERMCHAR c3)
          then Some (StepErr "Unknown character token." L3)
          else Some (charTok s0 (ungetChar L3) ch)
      end
    else if is_digit c2 then
      let* (c3, ch, L3) := dec_loop fuel (c2 - chr "0") L2 in
      if negb (NE_IS_TERMCHAR c3)
      then Some (StepErr "Unknown character token." L3)
      else Some (charTok s0 (ungetChar L3) ch)
    else lexCharTail s0 (chr "#") L2
  else lexCharTail s0 c L1.

(** [lexNext]. *)
Definition lexNext (L0 : NeLex) : option LexStep :=
  if Nat.eqb (cursor L0) (List.length src) then Some (StepEOF L0)
  else
    let (c0, L1) := nextChar src L0 in
    let* (c, L) := skip_trivia src fuel fuel c0 L1 in
    if c =? 0 then Some (StepEOF L)
    else
      let s0 := (cursor L - 1)%nat in
      if is_digit c || (c =? chr "-") || (c =? chr "+") then
        lexNumber src fuel s0 c L
      else if gNameChar c =? 1 then lexName src fuel s0 c L
      else if c =? QUOTE then lexString src fuel L
      else if c =? chr "\" then lexCharacter s0 L
      else Some (StepErr "Unknown token" L).

(** The loop of [lex]: tokens in order, and the error (message and line
    of [L] when [lexError] is called) that stopped the scan, if any. *)
Fixpoint lex_loop (f : nat) (L : NeLex) (acc : list NeLexInfo)
  : option (list NeLexInfo * option (string * Z)) :=
  match f with
  | O => None
  | S f' =>
      let* step := lexNext L in
      match step with
      | StepTok t L' => lex_loop f' L' (t :: acc)
      | StepEOF _ => Some (rev acc, None)
      | StepErr msg L' => Some (rev acc, Some (msg, line L'))
      end
  end.

End LexCharacter.

Definition lex_fuel (src : list Z) : nat := S (S (List.length src)).

(** The scan of [lex], starting at line 1. *)
Definition lex_scan (src : list Z) : option (list NeLexInfo * option (string * Z)) :=
  lex_loop src (lex_fuel src) (lex_fuel src) (mkLex 1 1 0 0) [].

(* ------------------------------------------------------------------ *)
(** ** Built-in string type *)

(** [NeStringMode]. *)
Inductive NeStringMode := NSM_Normal | NSM_REPL | NSM_Code.

Module StringType.

(** First pass of [stringCreate]: [++len] for a non-backslash, and for a
    backslash whose next byte is a backslash. *)
Fixpoint count_len (s : list Z) : Z :=
  match s with
  | [] => 0
  | c :: rest =>
      (if c =? 92 then
         match rest with
         | d :: _ => if d =? 92 then 1 else 0
         | [] => 0
         end
       else 1) + count_len rest
  end.

(** The [switch] on the escaped character. *)
Definition decode (d : Z) : Z :=
  if d =? chr "n" then 10
  else if d =? chr "r" then 13
  else if d =? chr "t" then 9
  else if d =? chr "b" then 8
  else d.

(** Second pass: the bytes written at [str[j++]], in order. *)
Fixpoint fill (s : list Z) : list Z :=
  match s with
  | [] => []
  | c :: rest =>
      if c =? 92 then
        match rest with
        | [] => []
        | d :: rest' => decode d :: fill rest'
        end
      else c :: fill rest
  end.

Fixpoint list_set {A} (l : list A) (i : nat) (v : A) : list A :=
  match l, i with
  | [], _ => []
  | _ :: l', O => v :: l'
  | x :: l', S i' => x :: list_set l' i' v
  end.

Fixpoint write_at {A} (l : list A) (j : nat) (bs : list A) : list A :=
  match bs with
  | [] => l
  | b :: bs' => write_at (list_set l j b) (S j) bs'
  end.

(** [StringObject]: [size] and the [size + 1] byte buffer ([None] for a
    byte never written after [NeAlloc]). *)
Record StringObject := mkStringObject {
  so_size : Z;
  so_str : list (option Z)
}.

(** The bytes the loops of [stringCreate] read: [strLen] is
    [(int)(range->end - range->start)], the span length converted to [int]
    (wrapping); a negative [strLen] runs no iteration. *)
Definition str_span (range : list Z) : list Z :=
  firstn (Z.to_nat (to_s32 (Z.of_nat (List.length range)))) range.

(** [stringCreate] with a successful [NeAlloc]: the object and the final
    value of [j] (checked by [assert(j == len)]). *)
Definition stringCreate (range : list Z) : StringObject * Z :=
  let s := str_span range in
  let len := count_len s in
  let buf0 := repeat (@None Z) (Z.to_nat (len + 1)) in
  let written := fill s in
  let buf1 := write_at buf0 0 (map Some written) in
  let buf2 := list_set buf1 (Z.to_nat len) (Some 0) in
  (mkStringObject len buf2, Z.of_nat (List.length written)).

(** The bytes [str->str[0 .. size)] that [stringToString] reads; a byte
    never written after [NeAlloc] reads as 0 here. *)
Definition so_bytes (so : StringObject) : list Z :=
  map (fun o => match o with Some b => b | None => 0 end)
      (firstn (Z.to_nat (so_size so)) (so_str so)).

(** The [switch] of the quoted form. *)
Definition escape_byte (c : Z) : list Z :=
  if c =? 10 then [92; chr "n"]
  else if c =? 13 then [92; chr "r"]
  else if c =? 9 then [92; chr "t"]
  else if c =? 8 then [92; chr "b"]
  else [c].

(** Whether [assert(j == len)] fails, which stops the program (a build
    with assertions enabled). *)
Definition string_create_stops (range : list Z) : bool :=
  let '(so, j) := stringCreate range in negb (j =? so_size so).

End StringType.

(* ------------------------------------------------------------------ *)
(** ** Object registry, GC list, output and the VM context *)

(** Data passed to a create callback ([const void* data]): a byte range,
    as [NeMakeStringRanged] passes, or an embedder's opaque pointer. *)
Inductive Data :=
| DRange (bytes : list Z)
| DPtr (p : nat).

(** [ObjectInfo].  The callbacks are modelled by their results; their
    invocations are recorded as events of the VM.  [createStops] tells,
    for a type with a create callback, the data on which that callback
    does not return (it stops the program, as a failed [assert] does). *)
Record ObjectInfo := mkObjectInfo {
  oi_name : string;
  createFn : option (Data -> bool);
  deleteFn : bool;                          (* delete callback present *)
  evalFn : option (nat -> bool * Atom);
  toStringFn : bool;
  oi_size : Z;
  createStops : Data -> bool
}.

(** Observable actions on the heap: the allocation and free of an object
    block and the invocations of its create and delete callbacks. *)
Inductive Event :=
| EvAlloc (obj : nat)
| EvCreateCb (obj : nat)
| EvDeleteCb (obj : nat)
| EvFree (obj : nat).

(** [struct _Nerd]: output configuration, registered types, the GC list
    (object identity and type id, head first) and the recorded effects.
    Objects are identified by a counter standing for their address. *)
Record VM := mkVM {
  outputConfigured : bool;
  objectInfo : list ObjectInfo;
  stringType : nat;
  gcObjs : list (nat * nat);
  nextObj : nat;
  events : list Event;
  outputs : list string
}.

Definition set_gcObjs (N : VM) (l : list (nat * nat)) : VM :=
  mkVM (outputConfigured N) (objectInfo N) (stringType N) l (nextObj N)
       (events N) (outputs N).

Definition add_events (N : VM) (e : list Event) : VM :=
  mkVM (outputConfigured N) (objectInfo N) (stringType N) (gcObjs N)
       (nextObj N) (events N ++ e) (outputs N).

Definition fresh_obj (N : VM) : VM :=
  mkVM (outputConfigured N) (objectInfo N) (stringType N) (gcObjs N)
       (S (nextObj N)) (events N) (outputs N).

Definition add_output (N : VM) (msg : string) : VM :=
  mkVM (outputConfigured N) (objectInfo N) (stringType N) (gcObjs N)
       (nextObj N) (events N) (outputs N ++ [msg]).

Definition noInfo : ObjectInfo :=
  mkObjectInfo EmptyString None false None false 0 (fun _ => false).

(** [objectType]: the record at index [type] of the registry. *)
Definition objectType (N : VM) (type : nat) : ObjectInfo :=
  nth type (objectInfo N) noInfo.

(** [objectDelete]: delete callback if present, then free the block. *)
Definition objectDelete (N : VM) (obj : nat * nat) : VM :=
  let '(id, type) := obj in
  add_events N ((if deleteFn (objectType N type) then [EvDeleteCb id] else [])
                ++ [EvFree id]).

(** [NeObjectRegister]: append, the index is the type id. *)
Definition NeObjectRegister (N : VM) (info : ObjectInfo) : VM * nat :=
  (mkVM (outputConfigured N) (objectInfo N ++ [info]) (stringType N)
        (gcObjs N) (nextObj N) (events N) (outputs N),
   List.length (objectInfo N)).

(** [NeObjectCreate] when the create callback returns; [allocOk] is
    whether [NeAlloc] of the header and payload returned a block.  [None]
    is the null pointer. *)
Definition NeObjectCreate (N : VM) (type : nat) (data : Data) (allocOk : bool)
  : VM * option nat :=
  let info := objectType N type in
  if allocOk then
    let id := nextObj N in
    let N1 := add_events (fresh_obj N) [EvAlloc id] in
    match createFn info with
    | Some f =>
        let N2 := add_events N1 [EvCreateCb id] in
        if f data then (set_gcObjs N2 ((id, type) :: gcObjs N2), Some id)
        else (objectDelete N2 (id, type), None)
    | None => (set_gcObjs N1 ((id, type) :: gcObjs N1), Some id)
    end
  else (N, None).

(** [NeClose]: [while (N->gcObjs)] delete the head and advance. *)
Fixpoint close_loop (N : VM) (objs : list (nat * nat)) : VM :=
  match objs with
  | [] => set_gcObjs N []
  | o :: rest => close_loop (set_gcObjs (objectDelete N o) rest) rest
  end.

Definition NeClose (N : VM) : VM := close_loop N (gcObjs N).

(** A call of [NeObjectCreate]: [None] when the create callback, invoked
    on a freshly allocated block, stops the program. *)
Definition NeObjectCreate_run (N : VM) (type : nat) (data : Data) (allocOk : bool)
  : option (VM * option nat) :=
  let info := objectType N type in
  let stops := match createFn info with
               | Some _ => allocOk && createStops info data
               | None => false
               end in
  if stops then None else Some (NeObjectCreate N type data allocOk).

(** The string type as [registerStringType] records it.  Its create
    callback returns 1 when its [NeAlloc] does (the memory callback is
    taken to succeed) and stops the program when [assert(j == len)]
    fails; it is only given byte ranges. *)
Definition strObjectInfo : ObjectInfo :=
  mkObjectInfo "string" (Some (fun _ => true)) true None true 16
    (fun d => match d with
              | DRange r => StringType.string_create_stops r
              | DPtr _ => false
              end).

Definition emptyVM (outputFunc : bool) : VM :=
  mkVM outputFunc [] 0 [] 0 [] [].

(** [NeOpen]: empty GC list, the string type registered first. *)
Definition NeOpen (outputFunc : bool) : VM :=
  let '(N, t) := NeObjectRegister (emptyVM outputFunc) strObjectInfo in
  mkVM (outputConfigured N) (objectInfo N) t (gcObjs N) (nextObj N)
       (events N) (outputs N).

(** [NeOut]: one output-callback invocation, when one is configured. *)
Definition NeOut (N : VM) (msg : string) : VM :=
  if outputConfigured N then add_output N msg else N.

(** [printf] conversions used in the messages. *)
Fixpoint decimal_digits (f : nat) (n : Z) (acc : string) : string :=
  match f with
  | O => acc
  | S f' =>
      let acc' := String (ascii_of_nat (48 + Z.to_nat (n mod 10))) acc in
      if n / 10 =? 0 then acc' else decimal_digits f' (n / 10) acc'
  end.

(** [%d] of an [int]. *)
Definition format_d (z : Z) : string :=
  if z <? 0 then String "-" (decimal_digits 11 (- z) EmptyString)
  else decimal_digits 11 z EmptyString.

Definition newline : string := String (ascii_of_nat 10) EmptyString.

(** ["%s(%d): LEX ERROR: "]; the [i64] line is read by [%d] as an [int]. *)
Definition lex_error_header (origin : string) (ln : Z) : string :=
  origin ++ "(" ++ format_d (to_s32 ln) ++ "): LEX ERROR: ".

(** [lexErrorV]: three calls of [NeOut].  The message [msg] is formatted
    into a scratch session that is closed at once; [errorMsg] points at
    its first byte.  [NeOut(N, errorMsg)] then opens a scratch session at
    the same offset, so the format and the destination of its
    [vsnprintf] are the same bytes; glibc's [vsnprintf] first terminates
    the destination, and the callback receives the empty string. *)
Definition lexErrorV (N : VM) (origin : string) (ln : Z) (msg : string) : VM :=
  let N1 := NeOut N (lex_error_header origin ln) in
  let N2 := NeOut N1 EmptyString in
  NeOut N2 newline.

(** [lex]: scan the whole source; on a lex error the message is output
    and the token arena discarded.  Result: VM, success flag, tokens. *)
Definition lex (N : VM) (origin : string) (src : list Z)
  : option (VM * bool * list NeLexInfo) :=
  let* (toks, err) := lex_scan src in
  match err with
  | None => Some (N, true, toks)
  | Some (msg, ln) => Some (lexErrorV N origin ln msg, false, [])
  end.

(* ------------------------------------------------------------------ *)
(** ** Reader and evaluator *)

Definition NeMakeObject (o : option nat) : Atom :=
  match o with
  | Some id => AObject id
  | None => ANil  (* a null object: the C code forms an invalid pointer *)
  end.

(** [NeMakeStringRanged]; [None] when the program stops in the create
    callback. *)
Definition NeMakeStringRanged (N : VM) (bytes : list Z) : option (VM * Atom) :=
  let* (N1, o) := NeObjectCreate_run N (stringType N) (DRange bytes) true in
  Some (N1, NeMakeObject o).

(** The source bytes of a token, [info->s .. info->e). *)
Definition token_span (src : list Z) (t : NeLexInfo) : list Z :=
  firstn (li_end t - li_start t) (skipn (li_start t) src).

(** [nextAtom]: [out] is the output slot, unchanged on a read error. *)
Definition nextAtom (N : VM) (src : list Z) (t : NeLexInfo) (out : Atom)
  : option (VM * bool * Atom) :=
  match li_token t with
  | NeToken_Number | NeToken_Character => Some (N, true, li_atom t)
  | NeToken_Yes => Some (N, true, NeMakeBool true)
  | NeToken_No => Some (N, true, NeMakeBool false)
  | NeToken_String =>
      let* (N1, a) := NeMakeStringRanged N (token_span src t) in
      Some (N1, true, a)
  | _ => Some (N, false, out)
  end.

(** The type id of a live object. *)
Definition objectTypeOf (N : VM) (id : nat) : nat :=
  match find (fun o => Nat.eqb (fst o) id) (gcObjs N) with
  | Some (_, t) => t
  | None => 0
  end.

(** [objectEval]: the type's evaluate callback, else self-evaluation. *)
Definition objectEval (N : VM) (a : Atom) (id : nat) : bool * Atom :=
  match evalFn (objectType N (objectTypeOf N id)) with
  | Some f => f id
  | None => (true, a)
  end.

Definition eval (N : VM) (a : Atom) : bool * Atom :=
  match a with
  | AObject id => objectEval N a id
  | _ => (true, a)
  end.

(** The [while (tokens != endToken)] loop of [NeRun]. *)
Fixpoint run_tokens (N : VM) (src : list Z) (toks : list NeLexInfo) (out : Atom)
  : option (VM * bool * Atom) :=
  match toks with
  | [] => Some (N, true, out)
  | t :: rest =>
      let* (N1, ok, a) := nextAtom N src t out in
      if negb ok then Some (N1, false, a)
      else
        let '(ok2, r) := eval N1 a in
        if negb ok2 then Some (N1, false, r) else run_tokens N1 src rest r
  end.

(** [strlen] for a size of [-1]. *)
Fixpoint strlen (s : list Z) : nat :=
  match s with
  | [] => O
  | c :: s' => if c =? 0 then O else S (strlen s')
  end.

Definition source_span (source : list Z) (size : Z) : list Z :=
  if size =? -1 then firstn (strlen source) source
  else firstn (Z.to_nat size) source.

(** [NeRun]: result VM, returned flag and the output slot; [None] when
    the program stops in a create callback. *)
Definition NeRun (N : VM) (origin : string) (source : list Z) (size : Z)
  : option (VM * bool * Atom) :=
  let src := source_span source size in
  let* (N1, ok, toks) := lex N origin src in
  if negb ok then Some (N1, false, NeMakeNil)
  else run_tokens N1 src toks NeMakeNil.

(* ------------------------------------------------------------------ *)
(** ** Arena *)

Module ArenaOps.

(** [Arena]: buffer addresses [start]/[end_], [cursor] and [restore]
    offsets, and the buffer contents by offset (a byte for text, a 64-bit
    word at its offset for the restore-point headers). *)
Record Arena := mkArena {
  start : Z;
  end_ : Z;
  cursor : Z;
  restore : Z;
  mem : Z -> Z
}.

Definition upd (m : Z -> Z) (o v : Z) : Z -> Z :=
  fun o' => if o' =? o then v else m o'.

Fixpoint write_list (m : Z -> Z) (o : Z) (bs : list Z) : Z -> Z :=
  match bs with
  | [] => m
  | b :: bs' => write_list (upd m o b) (o + 1) bs'
  end.

Section Ops.

(** The memory callback as [realloc]: the address of the grown buffer,
    given the old address and the new size; the contents move with it.
    Allocation is taken to succeed. *)
Variable relocate : Z -> Z -> Z.

Definition arenaEnsureSpace (a : Arena) (numBytes : Z) : Arena :=
  if end_ a <? start a + cursor a + numBytes then
    let currentSize := end_ a - start a in
    let requiredSize := currentSize + numBytes in
    let newSize := currentSize + Z.max requiredSize 4096 in
    let s' := relocate (start a) newSize in
    mkArena s' (s' + newSize) (cursor a) (restore a) (mem a)
  else a.

(** [arenaAlloc]: the returned pointer as an offset from [start]. *)
Definition arenaAlloc (a : Arena) (numBytes : Z) : Z * Arena :=
  let a1 := arenaEnsureSpace a numBytes in
  (cursor a1, mkArena (start a1) (end_ a1) (cursor a1 + numBytes)
                      (restore a1) (mem a1)).

(** [arenaAlign]: [(start + cursor) % 16] as C's truncating [%]. *)
Definition arenaAlign (a : Arena) : Arena :=
  let m := Z.rem (start a + cursor a) 16 in
  if m =? 0 then a else snd (arenaAlloc a (16 - m)).

(** [arenaAlignedAlloc]. *)
Definition arenaAlignedAlloc (a : Arena) (numBytes : Z) : Z * Arena :=
  arenaAlloc (arenaAlign a) numBytes.

Definition sentinel_push : Z := to_s64 (Z.of_N 0xaaaaaaaaaaaaaaaa).
Definition sentinel_pop : Z := to_s64 (Z.of_N 0xbbbbbbbbbbbbbbbb).

(** [arenaPush]: align, allocate two words, chain the previous mark. *)
Definition arenaPush (a : Arena) : Arena :=
  let a1 := arenaAlign a in
  let '(p, a2) := arenaAlloc a1 16 in
  mkArena (start a2) (end_ a2) (cursor a2) p
          (upd (upd (mem a2) p sentinel_push) (p + 8) (restore a2)).

(** [arenaPop]; [None] is the failure of [assert(arena->restore != -1)]. *)
Definition arenaPop (a : Arena) : option Arena :=
  if restore a =? -1 then None
  else
    let p := restore a in
    Some (mkArena (start a) (end_ a) p (mem a (p + 8))
                  (upd (mem a) p sentinel_pop)).

Fixpoint pushes (k : nat) (a : Arena) : Arena :=
  match k with
  | O => a
  | S k' => pushes k' (arenaPush a)
  end.

Fixpoint pops (k : nat) (a : Arena) : option Arena :=
  match k with
  | O => Some a
  | S k' => match pops k' a with Some a' => arenaPop a' | None => None end
  end.

Definition arenaSpace (a : Arena) : Z := (end_ a - start a) - cursor a.

(** Size of the buffer, [end - start]. *)
Definition arena_size (a : Arena) : Z := end_ a - start a.

(** [vsnprintf(buf, maxSize, ...)] producing the text [txt]: at most
    [maxSize - 1] characters and a NUL are stored; the full length is
    returned. *)
Definition vsnprintf (m : Z -> Z) (o maxSize : Z) (txt : list Z) : (Z -> Z) * Z :=
  let n := Z.of_nat (List.length txt) in
  if maxSize <=? 0 then (m, n)
  else (write_list m o (firstn (Z.to_nat (Z.min n (maxSize - 1))) txt ++ [0]), n).

Definition with_mem (a : Arena) (m : Z -> Z) : Arena :=
  mkArena (start a) (end_ a) (cursor a) (restore a) m.

(** [arenaFormatV], the formatted text being [txt]; [conv] tells whether
    the format has a conversion, i.e. whether [vsnprintf] reads [args].
    [None] is undefined or stopping behaviour:
    - a text longer than [INT_MAX]: [vsnprintf] returns -1 and
      [arenaAlloc]'s [assert(numBytes >= 0)] fails;
    - the growth branch of a format with a conversion: the second
      [vsnprintf] is given the [va_list] the first one has consumed;
    - the growth branch for a text of [INT_MAX] bytes: [numChars + 1]
      overflows. *)
Definition arenaFormatV (a : Arena) (txt : list Z) (conv : bool) : option (Z * Arena) :=
  let maxSize := arenaSpace a in
  let '(m1, numChars) := vsnprintf (mem a) (cursor a) maxSize txt in
  if 2 ^ 31 <=? numChars then None
  else
  let a1 := with_mem a m1 in
  if numChars <? maxSize then Some (arenaAlloc a1 numChars)
  else if conv || (2 ^ 31 - 1 =? numChars) then None
  else
    let a2 := arenaEnsureSpace a1 (numChars + 1) in
    let '(m3, numChars') := vsnprintf (mem a2) (cursor a2) (numChars + 1) txt in
    Some (arenaAlloc (with_mem a2 m3) (numChars' + 1)).

End Ops.

(** Padding [arenaAlign] adds at a given start address and cursor. *)
Definition align_pad (s c : Z) : Z :=
  let m := Z.rem (s + c) 16 in if m =? 0 then 0 else 16 - m.

End ArenaOps.

(* ------------------------------------------------------------------ *)
(** ** Scratch output and [stringToString] *)

Module StringPrint.

Import ArenaOps StringType.

Section Scratch.

Variable relocate : Z -> Z -> Z.

(** [NeScratchFormat] of a format without conversions, whose output is
    [txt]. *)
Definition NeScratchFormat (a : Arena) (txt : list Z) : option Arena :=
  match arenaFormatV relocate a txt false with
  | Some (_, a') => Some a'
  | None => None
  end.

(** [NeScratchAdd]: allocate the bytes, then [memcpy] them. *)
Definition NeScratchAdd (a : Arena) (bs : list Z) : Arena :=
  let '(p, a1) := arenaAlloc relocate a (Z.of_nat (List.length bs)) in
  with_mem a1 (write_list (mem a1) p bs).

(** [NeScratchAddChar]: allocate one byte and store [c]. *)
Definition NeScratchAddChar (a : Arena) (c : Z) : Arena :=
  let '(p, a1) := arenaAlloc relocate a 1 in
  with_mem a1 (upd (mem a1) p c).

(** The escaped bytes of the [switch] of [stringToString]. *)
Definition escape_text (c : Z) : option (list Z) :=
  if c =? 10 then Some [92; chr "n"]
  else if c =? 13 then Some [92; chr "r"]
  else if c =? 9 then Some [92; chr "t"]
  else if c =? 8 then Some [92; chr "b"]
  else None.

(** The loop [for (int i = 0; i < str->size; ++i)] of the quoted form. *)
Fixpoint code_loop (a : Arena) (bs : list Z) : option Arena :=
  match bs with
  | [] => Some a
  | c :: bs' =>
      let* a1 := match escape_text c with
                 | Some t => NeScratchFormat a t
                 | None => Some (NeScratchAddChar a c)
                 end in
      code_loop a1 bs'
  end.

(** [stringToString] on the scratch arena. *)
Definition stringToString (so : StringObject) (mode : NeStringMode) (a : Arena)
  : option Arena :=
  match mode with
  | NSM_Normal => Some (NeScratchAdd a (so_bytes so))
  | _ =>
      let* a1 := NeScratchFormat a [QUOTE] in
      let* a2 := code_loop a1 (so_bytes so) in
      NeScratchFormat a2 [QUOTE]
  end.

End Scratch.

(** The bytes added to an arena between two states, from [cursor a] up to
    [cursor a'], as stored in [a']. *)
Definition arena_text (a a' : Arena) : list Z :=
  map (fun i => mem a' (cursor a + Z.of_nat i))
      (seq 0 (Z.to_nat (cursor a' - cursor a))).

(** [a'] is [a] with the bytes [t] added at its cursor, in the same
    buffer. *)
Definition arena_extends (a a' : Arena) (t : list Z) : Prop :=
  start a' = start a /\ end_ a' = end_ a /\
  cursor a' = cursor a + Z.of_nat (List.length t) /\
  (forall x, x < cursor a -> mem a' x = mem a x) /\
  (forall i, (i < List.length t)%nat -> mem a' (cursor a + Z.of_nat i) = nth i t 0).

End StringPrint.


(* ------------------------------------------------------------------ *)
(** ** Printing ([NeToString]) *)


(** Decimal digits of a non-negative number, prepended to [acc]. *)
Fixpoint dec_bytes (f : nat) (n : Z) (acc : list Z) : list Z :=
  match f with
  | O => acc
  | S f' =>
      let acc' := (48 + n mod 10) :: acc in
      if n / 10 =? 0 then acc' else dec_bytes f' (n / 10) acc'
  end.

(** [%lli]. *)
Definition format_lli (i : Z) : list Z :=
  if i <? 0 then chr "-" :: dec_bytes 20 (- i) [] else dec_bytes 20 i [].

(** Lower-case hex digits of a non-negative number, prepended to [acc]. *)
Fixpoint hex_bytes (f : nat) (n : Z) (acc : list Z) : list Z :=
  match f with
  | O => acc
  | S f' =>
      let d := n mod 16 in
      let acc' := (if d <? 10 then 48 + d else chr "a" + d - 10) :: acc in
      if n / 16 =? 0 then acc' else hex_bytes f' (n / 16) acc'
  end.

(** [%02x] of an [int]: unsigned 32-bit, at least two digits. *)
Definition format_x02 (v : Z) : list Z :=
  let ds := hex_bytes 8 (v mod 2 ^ 32) [] in
  if (List.length ds <? 2)%nat then 48 :: ds else ds.

(** The [gCharMap] search: [gCharMap[i].name + 2] of the first entry
    whose [ch] is [c]. *)
Fixpoint char_map_name (m : list (list Z * Z)) (c : Z) : option (list Z) :=
  match m with
  | [] => None
  | (name, ch) :: m' => if c =? ch then Some (skipn 2 name) else char_map_name m' c
  end.

(** The [AT_Character] case of [NeToString]. *)
Definition character_text (c : Z) (mode : NeStringMode) : list Z :=
  let '(prefix, done) :=
    match mode with
    | NSM_Normal => ([], false)
    | _ =>
        if (c <=? chr " ") || (126 <? c) then
          match char_map_name gCharMap c with
          | Some name => (92 :: name, true)
          | None => (92 :: bytes_of_string "#x" ++ format_x02 c, true)
          end
        else ([92], false)
    end in
  if done then prefix
  else if NE_IS_WHITESPACE c || (c =? 13) || (c =? 8) || (c =? 27)
          || ((chr " " <? c) && (c <? 127))
  then prefix ++ [c]
  else prefix ++ [chr "?"].

(** The text [NeToString] leaves in its scratch session for an atom, when
    the scratch arena does not grow during the session.  [objectText] is
    the text written for an object (its type's [toStringFn], or the
    default [<name:address>]). *)
Definition NeToString_text (objectText : nat -> NeStringMode -> list Z)
  (a : Atom) (mode : NeStringMode) : list Z :=
  match a with
  | ANil => bytes_of_string "nil"
  | AInteger i => format_lli i
  | ABoolean i => if i =? 0 then bytes_of_string "no" else bytes_of_string "yes"
  | ACharacter c => character_text c mode
  | AObject id => objectText id mode
  end.

(* ------------------------------------------------------------------ *)
(** ** Scenarios *)

(** A sequence of [NeObjectCreate] calls (type id, data, whether
    [NeAlloc] succeeds); the successfully created objects, in creation
    order, with their type ids. *)
Fixpoint run_creates (N : VM) (reqs : list (nat * Data * bool))
  : option (VM * list (nat * nat)) :=
  match reqs with
  | [] => Some (N, [])
  | (type, data, ok) :: rest =>
      let* (N1, o) := NeObjectCreate_run N type data ok in
      let* (N2, created) := run_creates N1 rest in
      Some (N2, match o with Some id => (id, type) :: created | None => created end)
  end.

(** The objects whose delete callback an event list invokes, in order. *)
Fixpoint deleted_in (es : list Event) : list nat :=
  match es with
  | [] => []
  | EvDeleteCb id :: es' => id :: deleted_in es'
  | _ :: es' => deleted_in es'
  end.

(** The events recorded by [NeClose]. *)
Definition close_events (N : VM) : list Event :=
  skipn (List.length (events N)) (events (NeClose N)).

(** The delete-callback and free events of [objectDelete] for an object. *)
Definition delete_events (N : VM) (obj : nat * nat) : list Event :=
  (if deleteFn (objectType N (snd obj)) then [EvDeleteCb (fst obj)] else [])
  ++ [EvFree (fst obj)].


(* ------------------------------------------------------------------ *)
(** ** Auxiliary definitions of the properties *)

(** One step of state 2 of [lexNumber], and the value of a digit string
    without the 64-bit wrap-around. *)
Definition digit_step (acc d : Z) : Z := to_s64 (acc * 10 + (d - chr "0")).

Definition digits_value (ds : list Z) : Z :=
  fold_left (fun acc d => acc * 10 + (d - chr "0")) ds 0.

(** The characters whose Code-mode text [NeToString] writes is read back
    by the lexer as the same character. *)
Definition char_reads_back (c : Z) : bool :=
  ((7 <=? c) && (c <=? 10)) || (c =? 13) || ((17 <=? c) && (c <=? 127)).

(** The shape of the tokens [lexNext] builds: the atom of a Number or
    Character token, and nil for the others. *)
Definition lexed_shape (t : NeLexInfo) : bool :=
  match li_token t, li_atom t with
  | NeToken_Number, AInteger _ => true
  | NeToken_Character, ACharacter _ => true
  | (NeToken_String | NeToken_Nil | NeToken_Yes | NeToken_No), ANil => true
  | _, _ => false
  end.

Definition is_string_token (t : NeLexInfo) : bool :=
  match li_token t with NeToken_String => true | _ => false end.

(** The string literals of a token list whose [stringCreate] passes its
    assertion. *)
Definition strings_created (src : list Z) (toks : list NeLexInfo) : Prop :=
  Forall (fun t => is_string_token t = true ->
                   StringType.string_create_stops (token_span src t) = false) toks.

(** The source [QUOTE ab QUOTE 1]. *)
Definition string_number_example : list Z :=
  [QUOTE] ++ bytes_of_string "ab" ++ [QUOTE] ++ bytes_of_string " 1".

(** The source [1 QUOTE] followed by three backslashes and [QUOTE]: the
    lexer takes the three backslashes as the string's bytes. *)
Definition triple_backslash_example : list Z :=
  bytes_of_string "1 " ++ [QUOTE] ++ bytes_of_string "\\\" ++ [QUOTE].

(** The source [1 QUOTE ab QUOTE nil 2]. *)
Definition string_then_nil_example : list Z :=
  bytes_of_string "1 " ++ [QUOTE] ++ bytes_of_string "ab" ++ [QUOTE]
  ++ bytes_of_string " nil 2".

(** A scenario for [NeClose]: a VM with the string type, a type whose
    create callback fails on [DPtr 0] and that has a delete callback, a
    type with neither callback, and one object created beforehand. *)
Definition counterInfo : ObjectInfo :=
  mkObjectInfo "counter"
    (Some (fun d => match d with DPtr p => Nat.ltb 0 p | DRange _ => true end))
    true None false 8 (fun _ => false).

Definition plainInfo : ObjectInfo :=
  mkObjectInfo "plain" None false None false 8 (fun _ => false).

Definition close_scenario_vm : VM :=
  let N1 := fst (NeObjectRegister (NeOpen true) counterInfo) in
  let N2 := fst (NeObjectRegister N1 plainInfo) in
  fst (NeObjectCreate N2 1 (DPtr 1) true).

(** Requests: a counter, a string, a plain object, a counter whose create
    callback fails, and a counter whose allocation fails. *)
Definition close_scenario_reqs : list (nat * Data * bool) :=
  [(1%nat, DPtr 5, true); (0%nat, DRange (bytes_of_string "ab"), true);
   (2%nat, DPtr 0, true); (1%nat, DPtr 0, true); (1%nat, DPtr 3, false)].

(* ------------------------------------------------------------------ *)
(** * Properties *)

(** Claim C1 (code_bug): running [yes] and [no] on a freshly opened VM
    succeeds with Boolean true and false, but running [nil] fails: the
    lexer yields a [NeToken_Nil] token, which [nextAtom] has no case for,
    so [NeRun] returns 0 (the output slot holds the initial Nil). *)
Theorem NeRun_reserved_words : forall (outputFunc : bool) (origin : string),
  (exists N1, NeRun (NeOpen outputFunc) origin (bytes_of_string "yes") (-1)
              = Some (N1, true, ABoolean 1)) /\
  (exists N1, NeRun (NeOpen outputFunc) origin (bytes_of_string "no") (-1)
              = Some (N1, true, ABoolean 0)) /\
  (exists N1, NeRun (NeOpen outputFunc) origin (bytes_of_string "nil") (-1)
              = Some (N1, false, ANil)).
Proof.
  intros outputFunc origin.
  split; [| split]; eexists; reflexivity.
Qed.

(** Claim C10: when the lex pass succeeds with no token (empty input,
    only whitespace or comments), [NeRun] returns success with Nil in the
    output slot, and the VM is left as it was. *)
Theorem NeRun_no_tokens : forall N origin source size,
  lex_scan (source_span source size) = Some ([], None) ->
  NeRun N origin source size = Some (N, true, ANil).
Proof.
  intros N origin source size Hlex.
  unfold NeRun, lex. rewrite Hlex. reflexivity.
Qed.

Lemma NeRun_no_tokens_witness :
  lex_scan (source_span (bytes_of_string "  ; only a comment") (-1)) = Some ([], None)
  /\ NeRun (NeOpen true) "w" (bytes_of_string "  ; only a comment") (-1)
     = Some (NeOpen true, true, ANil).
Proof.
  split.
  - vm_compute. reflexivity.
  - apply NeRun_no_tokens. vm_compute. reflexivity.
Defined.

(** Claim C9 (code_bug): [42] and [-7] lex to one Number token of value
    42 and -7, but a sign with no digit after it is also accepted as a
    Number: state 1 moves to state 2 without checking for a digit, so [-]
    lexes to the Number 48 ([-1 * (0 - '0')]) and [-a] to the Number -49. *)
Theorem lex_number_sign_without_digit :
  lex_scan (bytes_of_string "42")
    = Some ([mkLexInfo 0 2 1 NeToken_Number (AInteger 42)], None) /\
  lex_scan (bytes_of_string "-7")
    = Some ([mkLexInfo 0 2 1 NeToken_Number (AInteger (-7))], None) /\
  lex_scan (bytes_of_string "-")
    = Some ([mkLexInfo 0 1 1 NeToken_Number (AInteger 48)], None) /\
  lex_scan (bytes_of_string "-a")
    = Some ([mkLexInfo 0 2 1 NeToken_Number (AInteger (-49))], None).
Proof.
  repeat split; vm_compute; reflexivity.
Qed.

(** Claim C8 (code_bug): [\#x41] lexes to one Character token of value
    0x41 ('A'), but the hex loop tests [c > '0'] instead of [c >= '0'], so
    a code with the digit 0, such as [\#x40], is a lex error. *)
Theorem lex_hex_character_zero_digit :
  lex_scan (bytes_of_string "\#x41")
    = Some ([mkLexInfo 0 5 1 NeToken_Character (ACharacter 65)], None) /\
  lex_scan (bytes_of_string "\#x40")
    = Some ([], Some ("Unknown character token."%string, 1)) /\
  lex_scan (bytes_of_string "\#x0")
    = Some ([], Some ("Unknown character token."%string, 1)).
Proof.
  repeat split; vm_compute; reflexivity.
Qed.

(** *** GC list and teardown *)

Lemma NeObjectCreate_objectInfo : forall N type data ok,
  objectInfo (fst (NeObjectCreate N type data ok)) = objectInfo N.
Proof.
  intros N type data ok. unfold NeObjectCreate.
  destruct ok; [| reflexivity].
  destruct (createFn (objectType N type)) as [f |]; [| reflexivity].
  destruct (f data); reflexivity.
Qed.

Lemma NeObjectCreate_gcObjs : forall N type data ok,
  gcObjs (fst (NeObjectCreate N type data ok))
  = match snd (NeObjectCreate N type data ok) with
    | Some id => [(id, type)]
    | None => []
    end ++ gcObjs N.
Proof.
  intros N type data ok. unfold NeObjectCreate.
  destruct ok; [| reflexivity].
  destruct (createFn (objectType N type)) as [f |]; [| reflexivity].
  destruct (f data); reflexivity.
Qed.

Lemma NeObjectCreate_ids : forall N type data ok,
  (nextObj N <= nextObj (fst (NeObjectCreate N type data ok)))%nat /\
  forall id, snd (NeObjectCreate N type data ok) = Some id ->
    id = nextObj N /\ (id < nextObj (fst (NeObjectCreate N type data ok)))%nat.
Proof.
  intros N type data ok. unfold NeObjectCreate.
  destruct ok; [| simpl; split; [lia | discriminate]].
  destruct (createFn (objectType N type)) as [f |];
    [destruct (f data) |]; simpl; split; try lia;
    intros id Hid; try discriminate; injection Hid as <-; split; lia.
Qed.

Lemma NeObjectCreate_run_eq : forall N type data ok r,
  NeObjectCreate_run N type data ok = Some r -> r = NeObjectCreate N type data ok.
Proof.
  intros N type data ok r. unfold NeObjectCreate_run.
  destruct (createFn (objectType N type));
    [destruct (ok && createStops (objectType N type) data) |]; simpl; congruence.
Qed.

Lemma run_creates_facts : forall reqs N N' created,
  run_creates N reqs = Some (N', created) ->
  objectInfo N' = objectInfo N /\
  gcObjs N' = rev created ++ gcObjs N /\
  (nextObj N <= nextObj N')%nat /\
  Forall (fun id => nextObj N <= id < nextObj N')%nat (map fst created) /\
  NoDup (map fst created).
Proof.
  induction reqs as [| [[type data] ok] rest IH]; intros N N' created Hr.
  - cbn in Hr. injection Hr as <- <-. simpl.
    repeat split; try constructor; lia.
  - cbn [run_creates] in Hr. unfold obind at 1 in Hr.
    destruct (NeObjectCreate_run N type data ok) as [[N1 o] |] eqn:E1;
      [| discriminate].
    apply NeObjectCreate_run_eq in E1.
    pose proof (NeObjectCreate_objectInfo N type data ok) as Hi.
    pose proof (NeObjectCreate_gcObjs N type data ok) as Hg.
    pose proof (NeObjectCreate_ids N type data ok) as [Hle Hid].
    rewrite <- E1 in Hi, Hg, Hle, Hid. simpl in Hi, Hg, Hle, Hid.
    unfold obind in Hr.
    destruct (run_creates N1 rest) as [[N2 c] |] eqn:E2; [| discriminate].
    injection Hr as <- <-.
    destruct (IH N1 N2 c E2) as (Hi2 & Hg2 & Hle2 & Hall & Hnd).
    split; [congruence |]. split.
    { rewrite Hg2, Hg. destruct o; simpl; [rewrite <- app_assoc |]; reflexivity. }
    split; [lia |].
    destruct o as [id |].
    + destruct (Hid id eq_refl) as [-> Hlt]. simpl. split.
      * constructor; [lia |].
        eapply Forall_impl; [| exact Hall]. intros x Hx; simpl in Hx; lia.
      * constructor; [| exact Hnd].
        intros Hin. rewrite Forall_forall in Hall.
        specialize (Hall _ Hin). lia.
    + split; [| exact Hnd].
      eapply Forall_impl; [| exact Hall]. intros x Hx; simpl in Hx; lia.
Qed.

Lemma NoDup_map_filter : forall {A B} (f : A -> B) (p : A -> bool) (l : list A),
  NoDup (map f l) -> NoDup (map f (filter p l)).
Proof.
  intros A B f p l. induction l as [| x l IH]; intros Hnd; [constructor |].
  simpl in Hnd. inversion Hnd as [| y ys Hx Hnd' Heq]; subst.
  simpl. destruct (p x); [| exact (IH Hnd')].
  simpl. constructor; [| exact (IH Hnd')].
  intros Hin. apply Hx. apply in_map_iff in Hin as (z & Hz & Hin).
  apply filter_In in Hin as [Hin _]. rewrite <- Hz. apply in_map, Hin.
Qed.

Lemma close_loop_events : forall objs N,
  events (close_loop N objs) = events N ++ flat_map (delete_events N) objs.
Proof.
  induction objs as [| [id type] rest IH]; intros N; simpl.
  - rewrite app_nil_r. reflexivity.
  - rewrite IH. simpl. rewrite <- app_assoc. reflexivity.
Qed.

Lemma close_events_eq : forall N,
  close_events N = flat_map (delete_events N) (gcObjs N).
Proof.
  intros N. unfold close_events, NeClose.
  rewrite close_loop_events, skipn_app, skipn_all, Nat.sub_diag.
  reflexivity.
Qed.

Lemma deleted_in_app : forall es1 es2,
  deleted_in (es1 ++ es2) = deleted_in es1 ++ deleted_in es2.
Proof.
  induction es1 as [| e es1 IH]; intros es2; [reflexivity |].
  destruct e; simpl; rewrite IH; reflexivity.
Qed.

Lemma deleted_in_delete_events : forall N objs,
  deleted_in (flat_map (delete_events N) objs)
  = map fst (filter (fun o => deleteFn (objectType N (snd o))) objs).
Proof.
  intros N objs. induction objs as [| [id type] rest IH]; [reflexivity |].
  simpl. rewrite deleted_in_app, IH. unfold delete_events. simpl.
  destruct (deleteFn (objectType N type)); reflexivity.
Qed.

Lemma filter_rev_comm : forall {A} (p : A -> bool) (l : list A),
  filter p (rev l) = rev (filter p l).
Proof.
  intros A p l. induction l as [| x l IH]; [reflexivity |].
  simpl. rewrite filter_app, IH. simpl.
  destruct (p x); simpl; [reflexivity | apply app_nil_r].
Qed.

(** Claim C2: after any sequence of [NeObjectCreate] calls on a VM
    (any registered types, with or without delete callbacks) whose GC list
    holds older objects only, [NeClose] runs [objectDelete] on the
    objects created by the sequence in reverse creation order, then on the
    objects that were already there; so the delete callback of each
    successfully created object of a type that has one is invoked exactly
    once, most recently created first. *)
Theorem NeClose_deletes_in_reverse_creation_order :
  forall (N : VM) (reqs : list (nat * Data * bool)) (N1 : VM) (created : list (nat * nat)),
  Forall (fun o => (fst o < nextObj N)%nat) (gcObjs N) ->
  run_creates N reqs = Some (N1, created) ->
  let hasDel := fun o : nat * nat => deleteFn (objectType N1 (snd o)) in
  close_events N1 = flat_map (delete_events N1) (rev created ++ gcObjs N) /\
  deleted_in (close_events N1)
    = rev (map fst (filter hasDel created)) ++ map fst (filter hasDel (gcObjs N)) /\
  NoDup (map fst created) /\
  (forall o, In o created -> hasDel o = true ->
     count_occ Nat.eq_dec (deleted_in (close_events N1)) (fst o) = 1%nat).
Proof.
  intros N reqs N1 created Hold Hr hasDel.
  destruct (run_creates_facts reqs N N1 created Hr) as (_ & Hg & _ & Hall & Hnd).
  assert (Hc : close_events N1 = flat_map (delete_events N1) (rev created ++ gcObjs N))
    by (rewrite close_events_eq, Hg; reflexivity).
  assert (Hd : deleted_in (close_events N1)
               = rev (map fst (filter hasDel created)) ++ map fst (filter hasDel (gcObjs N))).
  { rewrite Hc, deleted_in_delete_events, filter_app, map_app, filter_rev_comm, map_rev.
    reflexivity. }
  split; [exact Hc | split; [exact Hd | split; [exact Hnd |]]].
  intros o Hin Hdel. rewrite Hd, count_occ_app.
  assert (H1 : count_occ Nat.eq_dec (rev (map fst (filter hasDel created))) (fst o) = 1%nat).
  { apply (proj1 (NoDup_count_occ' Nat.eq_dec _)).
    - apply NoDup_rev, NoDup_map_filter, Hnd.
    - apply (proj1 (in_rev _ _)).
      apply in_map, filter_In. split; assumption. }
  assert (H2 : count_occ Nat.eq_dec (map fst (filter hasDel (gcObjs N))) (fst o) = 0%nat).
  { apply count_occ_not_In. intros Hin2.
    apply in_map_iff in Hin2 as (x & Hx & Hin2). apply filter_In in Hin2 as [Hin2 _].
    rewrite Forall_forall in Hold, Hall.
    specialize (Hold x Hin2). specialize (Hall (fst o) (in_map fst _ _ Hin)).
    simpl in Hold, Hall. lia. }
  rewrite H1, H2. reflexivity.
Qed.

Lemma NeClose_deletes_in_reverse_creation_order_witness :
  Forall (fun o => (fst o < nextObj close_scenario_vm)%nat) (gcObjs close_scenario_vm) /\
  match run_creates close_scenario_vm close_scenario_reqs with
  | Some (N1, created) =>
      let hasDel := fun o : nat * nat => deleteFn (objectType N1 (snd o)) in
      close_events N1 = flat_map (delete_events N1) (rev created ++ gcObjs close_scenario_vm) /\
      deleted_in (close_events N1)
        = rev (map fst (filter hasDel created))
          ++ map fst (filter hasDel (gcObjs close_scenario_vm)) /\
      NoDup (map fst created) /\
      (forall o, In o created -> hasDel o = true ->
         count_occ Nat.eq_dec (deleted_in (close_events N1)) (fst o) = 1%nat)
  | None => False
  end.
Proof.
  assert (HF : Forall (fun o => (fst o < nextObj close_scenario_vm)%nat)
                      (gcObjs close_scenario_vm)).
  { apply Forall_forall. intros o Ho. apply Nat.ltb_lt. revert o Ho. apply forallb_forall.
    vm_compute. reflexivity. }
  split; [exact HF|].
  assert (Hs : match run_creates close_scenario_vm close_scenario_reqs with
               | Some _ => true | None => false end = true) by (vm_compute; reflexivity).
  destruct (run_creates close_scenario_vm close_scenario_reqs) as [[N1 created]|] eqn:E.
  - exact (NeClose_deletes_in_reverse_creation_order _ _ _ _ HF E).
  - discriminate Hs.
Defined.

(** Claim C3: when the create callback fails, [NeObjectCreate] runs
    [objectDelete] on the new block (its type's delete callback, when the
    type has one, then the free), returns the null pointer, and the GC list
    is unchanged. *)
Theorem NeObjectCreate_init_failure : forall N type data f,
  createFn (objectType N type) = Some f -> f data = false ->
  let id := nextObj N in
  let '(N', r) := NeObjectCreate N type data true in
  r = None /\ gcObjs N' = gcObjs N /\
  events N' = events N ++ [EvAlloc id; EvCreateCb id]
              ++ (if deleteFn (objectType N type) then [EvDeleteCb id] else [])
              ++ [EvFree id].
Proof.
  intros N type data f Hcreate Hfail. simpl.
  unfold NeObjectCreate. rewrite Hcreate, Hfail. simpl.
  split; [reflexivity | split; [reflexivity |]].
  rewrite <- !app_assoc. reflexivity.
Qed.

Lemma NeObjectCreate_init_failure_witness :
  let N := fst (NeObjectRegister (NeOpen true)
                  (mkObjectInfo "failing" (Some (fun _ => false)) true None false 8
                     (fun _ => false))) in
  createFn (objectType N 1) = Some (fun _ => false) /\ (fun _ : Data => false) (DPtr 0) = false /\
  let id := nextObj N in
  let '(N', r) := NeObjectCreate N 1 (DPtr 0) true in
  r = None /\ gcObjs N' = gcObjs N /\
  events N' = events N ++ [EvAlloc id; EvCreateCb id]
              ++ (if deleteFn (objectType N 1) then [EvDeleteCb id] else [])
              ++ [EvFree id].
Proof.
  intros N. split; [reflexivity | split; [reflexivity |]].
  apply (NeObjectCreate_init_failure N 1 (DPtr 0) (fun _ => false));
    reflexivity.
Defined.

(** *** String type *)

(** Claim C4 (code_bug): the first pass of [stringCreate] counts a
    backslash followed by a backslash even when that backslash is itself
    the escaped character of the previous pair.  On the raw span of four
    backslashes (two escaped backslashes) it computes a length of 3 while
    the fill pass writes 2 bytes, so [assert(j == len)] fails and byte 2 of
    the buffer is never written.  The escape [\n] alone decodes as the
    spec says (the spec's example: 11 bytes, a newline at position 5). *)
Theorem stringCreate_length_mismatch :
  (let '(so, j) := StringType.stringCreate (bytes_of_string "\\\\") in
   StringType.so_size so = 3 /\ j = 2 /\
   StringType.so_str so = [Some 92; Some 92; None; Some 0]) /\
  (let '(so, j) := StringType.stringCreate (bytes_of_string "Hello\nWorld") in
   StringType.so_size so = 11 /\ j = 11 /\
   nth 5 (StringType.so_str so) None = Some 10).
Proof.
  split; vm_compute; repeat split; reflexivity.
Qed.

(** *** Lex errors *)




(** *** Arena *)

Module ArenaProps.
Import ArenaOps.

Section Props.

Variable relocate : Z -> Z -> Z.

Abbreviation ens := (arenaEnsureSpace relocate).
Abbreviation alloc := (arenaAlloc relocate).

Lemma ens_cursor : forall a n, cursor (ens a n) = cursor a.
Proof. intros a n. unfold arenaEnsureSpace. destruct (_ <? _); reflexivity. Qed.

Lemma ens_restore : forall a n, restore (ens a n) = restore a.
Proof. intros a n. unfold arenaEnsureSpace. destruct (_ <? _); reflexivity. Qed.

Lemma ens_mem : forall a n, mem (ens a n) = mem a.
Proof. intros a n. unfold arenaEnsureSpace. destruct (_ <? _); reflexivity. Qed.

(** Growth never relocates into too small a buffer. *)
Lemma ens_fits : forall a n,
  0 <= cursor a <= arena_size a ->
  cursor (ens a n) + n <= arena_size (ens a n).
Proof.
  intros a n Hc. unfold arena_size in *. unfold arenaEnsureSpace.
  destruct (end_ a <? start a + cursor a + n) eqn:E; simpl.
  - lia.
  - apply Z.ltb_ge in E. lia.
Qed.

Lemma ens_noop : forall a n,
  start a + cursor a + n <= end_ a -> ens a n = a.
Proof.
  intros a n H. unfold arenaEnsureSpace.
  destruct (end_ a <? start a + cursor a + n) eqn:E.
  - apply Z.ltb_lt in E. lia.
  - destruct a; reflexivity.
Qed.

Lemma align_pad_nonneg : forall s c, 0 <= align_pad s c.
Proof.
  intros s c. unfold align_pad.
  destruct (Z.rem (s + c) 16 =? 0) eqn:E; [lia |].
  pose proof (Z.rem_bound_abs (s + c) 16 ltac:(lia)) as Hb.
  rewrite Z.abs_lt in Hb. simpl in Hb. lia.
Qed.

Lemma align_fields : forall a,
  cursor (arenaAlign relocate a) = cursor a + align_pad (start a) (cursor a) /\
  restore (arenaAlign relocate a) = restore a /\
  mem (arenaAlign relocate a) = mem a.
Proof.
  intros a. unfold arenaAlign, align_pad.
  destruct (Z.rem (start a + cursor a) 16 =? 0).
  - repeat split; lia.
  - unfold arenaAlloc. simpl.
    rewrite ens_cursor, ens_restore, ens_mem. repeat split.
Qed.

Lemma push_fields : forall a,
  let p := cursor a + align_pad (start a) (cursor a) in
  cursor (arenaPush relocate a) = p + 16 /\
  restore (arenaPush relocate a) = p /\
  mem (arenaPush relocate a) = upd (upd (mem a) p sentinel_push) (p + 8) (restore a).
Proof.
  intros a p. unfold arenaPush, arenaAlloc. simpl.
  destruct (align_fields a) as (Hc & Hr & Hm).
  rewrite ens_cursor, ens_restore, ens_mem, Hc, Hr, Hm.
  repeat split.
Qed.

(** [k] pushes then [k] pops: the restore chain is unwound, the words
    below the starting cursor are untouched, and the cursor is the one
    recorded by the first push (after its alignment). *)
Lemma push_pop_chain : forall k a,
  0 <= cursor a ->
  exists a', pops k (pushes relocate k a) = Some a' /\
    restore a' = restore a /\
    (forall o, o < cursor a -> mem a' o = mem a o) /\
    cursor a' = match k with
                | O => cursor a
                | S _ => cursor a + align_pad (start a) (cursor a)
                end.
Proof.
  induction k as [| k IH]; intros a Hc.
  - exists a. repeat split.
  - pose proof (align_pad_nonneg (start a) (cursor a)) as Hpad.
    destruct (push_fields a) as (Hpc & Hpr & Hpm).
    set (p := cursor a + align_pad (start a) (cursor a)) in *.
    destruct (IH (arenaPush relocate a)) as (t & Ht & Htr & Htm & _); [lia |].
    simpl. rewrite Ht. unfold arenaPop.
    rewrite Htr, Hpr.
    destruct (p =? -1) eqn:E; [apply Z.eqb_eq in E; lia |].
    eexists. split; [reflexivity |]. simpl.
    rewrite Htm by lia. rewrite Hpm.
    split; [| split].
    + unfold upd. rewrite Z.eqb_refl. reflexivity.
    + intros o Ho. unfold upd.
      rewrite Htm by lia. rewrite Hpm. unfold upd.
      repeat match goal with
             | |- context [?x =? ?y] => destruct (Z.eqb_spec x y)
             end; first [reflexivity | lia].
    + reflexivity.
Qed.

Lemma write_list_other : forall bs m o x,
  (x < o \/ o + Z.of_nat (List.length bs) <= x) -> write_list m o bs x = m x.
Proof.
  induction bs as [| b bs IH]; intros m o x Hx; [reflexivity |].
  simpl in *. rewrite IH by lia. unfold upd.
  destruct (x =? o) eqn:E; [apply Z.eqb_eq in E; lia | reflexivity].
Qed.

Lemma write_list_nth : forall bs m o i,
  (i < List.length bs)%nat -> write_list m o bs (o + Z.of_nat i) = nth i bs 0.
Proof.
  induction bs as [| b bs IH]; intros m o i Hi; simpl in *; [lia |].
  destruct i as [| i].
  - rewrite write_list_other by lia. unfold upd.
    rewrite Z.add_0_r, Z.eqb_refl. reflexivity.
  - replace (o + Z.of_nat (S i)) with (o + 1 + Z.of_nat i) by lia.
    apply IH. lia.
Qed.

Lemma alloc_mem : forall a n, mem (snd (alloc a n)) = mem a.
Proof. intros a n. simpl. apply ens_mem. Qed.

Lemma alloc_fst : forall a n, fst (alloc a n) = cursor a.
Proof. intros a n. simpl. apply ens_cursor. Qed.

Lemma alloc_size : forall a n, arena_size (snd (alloc a n)) = arena_size (ens a n).
Proof. reflexivity. Qed.

End Props.
End ArenaProps.

Module ArenaClaims.
Import ArenaOps ArenaProps.

Section Claims.

Variable relocate : Z -> Z -> Z.

Lemma vsnprintf_len : forall m o M txt,
  snd (vsnprintf m o M txt) = Z.of_nat (List.length txt).
Proof. intros m o M txt. unfold vsnprintf. destruct (M <=? 0); reflexivity. Qed.

Lemma vsnprintf_full : forall m o M txt,
  Z.of_nat (List.length txt) < M ->
  fst (vsnprintf m o M txt) = write_list m o (txt ++ [0]).
Proof.
  intros m o M txt H. unfold vsnprintf.
  destruct (M <=? 0) eqn:E; [apply Z.leb_le in E; lia |]. simpl.
  rewrite Z.min_l by lia. rewrite Nat2Z.id, firstn_all. reflexivity.
Qed.

Lemma written_text : forall m o txt,
  (forall i, (i < List.length txt)%nat ->
     write_list m o (txt ++ [0]) (o + Z.of_nat i) = nth i txt 0) /\
  write_list m o (txt ++ [0]) (o + Z.of_nat (List.length txt)) = 0.
Proof.
  intros m o txt. split.
  - intros i Hi. rewrite write_list_nth by (rewrite length_app; simpl; lia).
    apply app_nth1. exact Hi.
  - rewrite write_list_nth by (rewrite length_app; simpl; lia).
    rewrite app_nth2, Nat.sub_diag by lia. reflexivity.
Qed.

Lemma ens_grow : forall a n,
  arena_size a < cursor a + n ->
  arenaEnsureSpace relocate a n =
  let newSize := arena_size a + Z.max (arena_size a + n) 4096 in
  let s' := relocate (start a) newSize in
  mkArena s' (s' + newSize) (cursor a) (restore a) (mem a).
Proof.
  intros a n H. unfold arena_size in *. unfold arenaEnsureSpace.
  replace (end_ a <? start a + cursor a + n) with true
    by (symmetry; apply Z.ltb_lt; lia).
  reflexivity.
Qed.

(** Claim C5 (corrected): after [k >= 1] pushes and [k] pops the cursor
    is the cursor recorded by the first push, i.e. the starting cursor
    padded by [arenaAlign] so that [start + cursor] is a multiple of 16. *)
Theorem push_pop_restores_aligned_cursor : forall (k : nat) (a : Arena),
  (1 <= k)%nat -> 0 <= cursor a ->
  exists a', pops k (pushes relocate k a) = Some a' /\
    cursor a' = cursor a + align_pad (start a) (cursor a).
Proof.
  intros k a Hk Hc.
  destruct (push_pop_chain relocate k a Hc) as (a' & Ha' & _ & _ & Hcur).
  exists a'. split; [exact Ha' |].
  destruct k as [| k]; [lia | exact Hcur].
Qed.

Lemma vsnprintf_writes_from : forall m o M txt x, x < o ->
  fst (vsnprintf m o M txt) x = m x.
Proof.
  intros m o M txt x Hx. unfold vsnprintf. destruct (M <=? 0); [reflexivity|].
  simpl. apply write_list_other. lia.
Qed.

Lemma alloc_pair : forall b n,
  arenaAlloc relocate b n = (cursor b, snd (arenaAlloc relocate b n)).
Proof.
  intros b n. apply injective_projections; [| reflexivity].
  rewrite alloc_fst. reflexivity.
Qed.

(** What a defined [arenaFormatV] does: the text, then a NUL, from the
    old cursor; the cursor advances by the length, plus one for the NUL
    when the arena grew. *)
Lemma format_fields : forall a txt conv,
  let len := Z.of_nat (List.length txt) in
  len < 2 ^ 31 - 1 -> (len < arenaSpace a \/ conv = false) ->
  exists a', arenaFormatV relocate a txt conv = Some (cursor a, a') /\
  cursor a' = cursor a + len + (if len <? arenaSpace a then 0 else 1) /\
  restore a' = restore a /\
  (forall x, x < cursor a -> mem a' x = mem a x) /\
  (forall i, (i < List.length txt)%nat -> mem a' (cursor a + Z.of_nat i) = nth i txt 0) /\
  mem a' (cursor a + len) = 0 /\
  (0 <= cursor a <= arena_size a -> cursor a + len < arena_size a') /\
  (len < arenaSpace a -> start a' = start a /\ end_ a' = end_ a).
Proof.
  intros a txt conv len Hlen Hcase. unfold arenaFormatV.
  pose proof (vsnprintf_len (mem a) (cursor a) (arenaSpace a) txt) as Hl.
  pose proof (vsnprintf_writes_from (mem a) (cursor a) (arenaSpace a) txt) as Hw.
  destruct (vsnprintf (mem a) (cursor a) (arenaSpace a) txt) as [m1 nc] eqn:V.
  simpl in Hl, Hw. subst nc. fold len.
  replace (2 ^ 31 <=? len) with false by (symmetry; apply Z.leb_gt; lia).
  destruct (len <? arenaSpace a) eqn:Hfit.
  - apply Z.ltb_lt in Hfit.
    assert (Hm1 : m1 = write_list (mem a) (cursor a) (txt ++ [0])).
    { pose proof (vsnprintf_full (mem a) (cursor a) (arenaSpace a) txt) as Hf.
      rewrite V in Hf. apply Hf. unfold len in Hfit. lia. }
    destruct (written_text (mem a) (cursor a) txt) as [Ht Hz].
    rewrite alloc_pair. eexists. split; [reflexivity |].
    cbn [snd arenaAlloc cursor restore mem].
    rewrite ens_noop by (unfold arenaSpace in Hfit; simpl; lia). simpl.
    rewrite Hm1 in *. repeat split; auto; try lia.
    intros _. unfold arena_size, arenaSpace in *. simpl. lia.
  - assert (Hconv : conv = false) by (destruct Hcase as [Hc | Hc]; [apply Z.ltb_ge in Hfit; lia | exact Hc]).
    subst conv.
    replace (2 ^ 31 - 1 =? len) with false by (symmetry; apply Z.eqb_neq; lia).
    cbn [orb].
    set (a2 := arenaEnsureSpace relocate (with_mem a m1) (len + 1)).
    pose proof (vsnprintf_len (mem a2) (cursor a2) (len + 1) txt) as Hl2.
    pose proof (vsnprintf_full (mem a2) (cursor a2) (len + 1) txt
                  ltac:(unfold len; lia)) as Hf2.
    destruct (vsnprintf (mem a2) (cursor a2) (len + 1) txt) as [m3 nc'] eqn:V2.
    simpl in Hl2, Hf2. subst nc' m3. fold len.
    assert (Hc2 : cursor a2 = cursor a) by (unfold a2; rewrite ens_cursor; reflexivity).
    assert (Hr2 : restore a2 = restore a) by (unfold a2; rewrite ens_restore; reflexivity).
    assert (Hm2 : mem a2 = m1) by (unfold a2; rewrite ens_mem; reflexivity).
    assert (Hfits : 0 <= cursor a <= arena_size a -> cursor a2 + (len + 1) <= arena_size a2).
    { intros Hc. apply ens_fits. unfold with_mem, arena_size in *. simpl. lia. }
    rewrite alloc_pair. simpl cursor at 1. rewrite Hc2. eexists. split; [reflexivity |].
    cbn [snd arenaAlloc]. rewrite ens_cursor, ens_restore, ens_mem. simpl.
    rewrite Hc2, Hr2. rewrite Hc2 in Hfits.
    destruct (written_text (mem a2) (cursor a) txt) as [Ht Hz].
    repeat split; auto; try lia.
    + intros x Hx. rewrite write_list_other by lia. rewrite Hm2. auto.
    + intros Hc. specialize (Hfits Hc).
      rewrite ens_noop by (unfold arena_size in Hfits; simpl; lia).
      unfold arena_size in *. simpl. lia.
Qed.

(** The growth branch of a format with a conversion is undefined. *)
Lemma format_conv_growth : forall a txt,
  Z.of_nat (List.length txt) < 2 ^ 31 - 1 ->
  arenaSpace a <= Z.of_nat (List.length txt) ->
  arenaFormatV relocate a txt true = None.
Proof.
  intros a txt Hlen Hgrow. unfold arenaFormatV.
  pose proof (vsnprintf_len (mem a) (cursor a) (arenaSpace a) txt) as Hl.
  destruct (vsnprintf (mem a) (cursor a) (arenaSpace a) txt) as [m1 nc].
  simpl in Hl. subst nc.
  replace (2 ^ 31 <=? Z.of_nat (List.length txt)) with false
    by (symmetry; apply Z.leb_gt; lia).
  replace (Z.of_nat (List.length txt) <? arenaSpace a) with false
    by (symmetry; apply Z.ltb_ge; lia).
  reflexivity.
Qed.

(** Claim C6 (code_bug): an [arenaAlloc] of [n] bytes that overflows
    grows the buffer by [max(current + n, 4096)] bytes (not
    [max(current * 2, n, 4096)]), returns the old cursor with the [n]
    bytes inside the buffer, and a following alloc of [n] needs no growth
    when [n] is at most the old size.  [arenaFormatV] stores the whole
    text and its NUL inside the buffer when the text fits or when the
    format reads no argument; when the text does not fit and the format
    has a conversion, the growth branch passes the consumed [va_list] to
    a second [vsnprintf], which is undefined. *)
Theorem arena_growth : forall (a : Arena) (n : Z) (txt : list Z) (conv : bool),
  0 <= cursor a <= arena_size a -> 0 <= n ->
  (arena_size a < cursor a + n ->
   let '(p, a') := arenaAlloc relocate a n in
   p = cursor a /\
   arena_size a' = arena_size a + Z.max (arena_size a + n) 4096 /\
   cursor a' = cursor a + n /\ cursor a' <= arena_size a' /\
   (n <= arena_size a ->
    snd (arenaAlloc relocate a' n)
    = mkArena (start a') (end_ a') (cursor a' + n) (restore a') (mem a'))) /\
  (Z.of_nat (List.length txt) < 2 ^ 31 - 1 ->
   (Z.of_nat (List.length txt) < arenaSpace a \/ conv = false ->
    exists a', arenaFormatV relocate a txt conv = Some (cursor a, a') /\
    (forall i, (i < List.length txt)%nat ->
       mem a' (cursor a + Z.of_nat i) = nth i txt 0) /\
    mem a' (cursor a + Z.of_nat (List.length txt)) = 0 /\
    cursor a + Z.of_nat (List.length txt) < arena_size a') /\
   (arenaSpace a <= Z.of_nat (List.length txt) -> conv = true ->
    arenaFormatV relocate a txt conv = None)).
Proof.
  intros a n txt conv Hc Hn. split.
  - intros Hover. unfold arenaAlloc at 1. rewrite (ens_grow a n Hover).
    unfold arena_size in *. simpl.
    split; [reflexivity |]. split; [lia |]. split; [reflexivity |].
    split; [lia |].
    intros Hle. unfold arenaAlloc. simpl.
    rewrite ens_noop by (simpl; lia). reflexivity.
  - intros Hlen. split.
    + intros Hcase.
      destruct (format_fields a txt conv Hlen Hcase)
        as (a' & E & _ & _ & _ & Ht & Hz & Hs & _).
      exists a'. auto.
    + intros Hgrow ->. apply format_conv_growth; assumption.
Qed.

End Claims.

Lemma push_pop_restores_aligned_cursor_witness :
  (1 <= 2)%nat /\ 0 <= 1 /\
  exists a', pops 2 (pushes (fun s _ : Z => s) 2 (mkArena 0 4096 1 (-1) (fun _ => 0))) = Some a' /\
    cursor a' = 1 + align_pad 0 1.
Proof.
  split; [lia | split; [lia |]].
  apply (push_pop_restores_aligned_cursor (fun s _ : Z => s) 2
           (mkArena 0 4096 1 (-1) (fun _ => 0))); simpl; lia.
Defined.

(** Counterexample to claim C5 as stated: from cursor 1 of a buffer at
    address 0, one push and one pop leave the cursor at 16. *)
Lemma push_pop_cursor_counterexample :
  exists a', pops 1 (pushes (fun s _ : Z => s) 1 (mkArena 0 4096 1 (-1) (fun _ => 0))) = Some a' /\
    cursor a' = 16 /\ cursor a' <> 1.
Proof.
  eexists. split; [vm_compute; reflexivity |]. split; [reflexivity | discriminate].
Qed.

Lemma arena_growth_witness :
  0 <= 4094 <= arena_size (mkArena 0 4096 4094 (-1) (fun _ => 0)) /\ 0 <= 200 /\
  (arena_size (mkArena 0 4096 4094 (-1) (fun _ => 0)) < 4094 + 200 ->
   let '(p, a') := arenaAlloc (fun s _ : Z => s) (mkArena 0 4096 4094 (-1) (fun _ => 0)) 200 in
   p = 4094 /\
   arena_size a' = arena_size (mkArena 0 4096 4094 (-1) (fun _ => 0))
                   + Z.max (arena_size (mkArena 0 4096 4094 (-1) (fun _ => 0)) + 200) 4096 /\
   cursor a' = 4094 + 200 /\ cursor a' <= arena_size a' /\
   (200 <= arena_size (mkArena 0 4096 4094 (-1) (fun _ => 0)) ->
    snd (arenaAlloc (fun s _ : Z => s) a' 200)
    = mkArena (start a') (end_ a') (cursor a' + 200) (restore a') (mem a'))) /\
  (Z.of_nat (List.length (bytes_of_string "nerd")) < 2 ^ 31 - 1 ->
   (Z.of_nat (List.length (bytes_of_string "nerd"))
      < arenaSpace (mkArena 0 4096 4094 (-1) (fun _ => 0)) \/ true = false ->
    exists a', arenaFormatV (fun s _ : Z => s) (mkArena 0 4096 4094 (-1) (fun _ => 0))
                 (bytes_of_string "nerd") true = Some (4094, a') /\
    (forall i, (i < List.length (bytes_of_string "nerd"))%nat ->
       mem a' (4094 + Z.of_nat i) = nth i (bytes_of_string "nerd") 0) /\
    mem a' (4094 + Z.of_nat (List.length (bytes_of_string "nerd"))) = 0 /\
    4094 + Z.of_nat (List.length (bytes_of_string "nerd")) < arena_size a') /\
   (arenaSpace (mkArena 0 4096 4094 (-1) (fun _ => 0))
      <= Z.of_nat (List.length (bytes_of_string "nerd")) -> true = true ->
    arenaFormatV (fun s _ : Z => s) (mkArena 0 4096 4094 (-1) (fun _ => 0))
      (bytes_of_string "nerd") true = None)).
Proof.
  split; [unfold arena_size; simpl; lia | split; [lia |]].
  exact (arena_growth (fun s _ : Z => s) (mkArena 0 4096 4094 (-1) (fun _ => 0)) 200
           (bytes_of_string "nerd") true ltac:(unfold arena_size; simpl; lia) ltac:(lia)).
Defined.

End ArenaClaims.

(* ------------------------------------------------------------------ *)
(** * Further properties of the kernel *)

(** ** Printing and reading atoms *)


Lemma nextChar_plain : forall src L c,
  (cursor L < List.length src)%nat -> nth (cursor L) src 0 = c ->
  c <> 10 -> c <> 13 ->
  nextChar src L = (c, mkLex (line L) (line L) (S (cursor L)) (cursor L)).
Proof.
  intros src L c Hlt Hc H10 H13. unfold nextChar, src_end, byte_at.
  destruct (Nat.eqb_spec (cursor L) (List.length src)); [lia|]. rewrite Hc.
  destruct (Z.eqb_spec c 13); [congruence|].
  destruct (Z.eqb_spec c 10); [congruence|]. reflexivity.
Qed.

Lemma nextChar_end : forall src L, cursor L = List.length src ->
  nextChar src L = (0, mkLex (line L) (line L) (cursor L) (cursor L)).
Proof.
  intros src L H. unfold nextChar, src_end.
  rewrite H, Nat.eqb_refl. reflexivity.
Qed.

Lemma skipn_cons_nth : forall (l : list Z) n d ds, skipn n l = d :: ds ->
  nth n l 0 = d /\ skipn (S n) l = ds /\ (n < List.length l)%nat.
Proof.
  induction l as [|x l IH]; intros n d ds H.
  - destruct n; discriminate.
  - destruct n as [|n]; simpl in *.
    + inversion H; subst. repeat split; lia.
    + destruct (IH n d ds H) as (H1 & H2 & H3). repeat split; auto; lia.
Qed.

Lemma skipn_nil_len : forall (l : list Z) n, skipn n l = [] ->
  (n <= List.length l)%nat -> n = List.length l.
Proof.
  intros l n H Hle. pose proof (length_skipn n l) as E. rewrite H in E. simpl in E. lia.
Qed.

Lemma digit_not_nl : forall d, is_digit d = true -> d <> 10 /\ d <> 13.
Proof. intros d H. unfold is_digit in H. apply andb_true_iff in H as [H1 H2].
  apply Z.leb_le in H1. cbv in H1. split; intro; subst; cbv in H1; congruence. Qed.

Lemma number_digits_run : forall src ds f c ip L,
  skipn (cursor L) src = ds -> (cursor L <= List.length src)%nat ->
  Forall (fun d => is_digit d = true) ds -> (List.length ds < f)%nat ->
  number_digits src f c ip L =
  Some (fold_left digit_step ds (digit_step ip c),
        mkLex (line L) (line L) (List.length src) (List.length src)).
Proof.
  intros src ds. induction ds as [|d ds IH]; intros f c ip L Hs Hle Hd Hf;
    (destruct f as [|f]; [simpl in Hf; lia|]).
  - pose proof (skipn_nil_len _ _ Hs Hle) as E.
    simpl. rewrite (nextChar_end src L E). simpl. rewrite E. reflexivity.
  - destruct (skipn_cons_nth _ _ _ _ Hs) as (H1 & H2 & H3).
    apply Forall_cons_iff in Hd as [Hd1 Hd2].
    destruct (digit_not_nl d Hd1) as [N10 N13].
    simpl. rewrite (nextChar_plain src L d H3 H1 N10 N13). rewrite Hd1.
    rewrite (IH f d (to_s64 (ip * 10 + (c - chr "0")))
               (mkLex (line L) (line L) (S (cursor L)) (cursor L))); simpl in *; auto; lia.
Qed.

Lemma to_s64_mod : forall x, to_s64 x mod 2 ^ 64 = x mod 2 ^ 64.
Proof.
  intros x. unfold to_s64.
  destruct (Z.geb_spec (x mod 2 ^ 64) (2 ^ 63)).
  - replace (x mod 2 ^ 64 - 2 ^ 64) with (x mod 2 ^ 64 + (-1) * 2 ^ 64) by lia.
    rewrite Z.mod_add by lia. apply Z.mod_mod. lia.
  - apply Z.mod_mod. lia.
Qed.

Lemma to_s64_congr : forall x y, x mod 2 ^ 64 = y mod 2 ^ 64 -> to_s64 x = to_s64 y.
Proof. intros x y H. unfold to_s64. rewrite H. reflexivity. Qed.

Lemma to_s64_id : forall x, - 2 ^ 63 <= x < 2 ^ 63 -> to_s64 x = x.
Proof.
  intros x Hx. unfold to_s64.
  destruct (Z.ltb_spec x 0).
  - replace (x mod 2 ^ 64) with (x + 2 ^ 64)
      by (apply Z.mod_unique with (-1); lia).
    destruct (Z.geb_spec (x + 2 ^ 64) (2 ^ 63)); lia.
  - rewrite Z.mod_small by lia. destruct (Z.geb_spec x (2 ^ 63)); lia.
Qed.

Lemma fold_digit_step : forall ds acc,
  fold_left digit_step ds (to_s64 acc)
  = to_s64 (fold_left (fun a d => a * 10 + (d - chr "0")) ds acc).
Proof.
  induction ds as [|d ds IH]; intros acc; simpl; auto.
  rewrite <- IH. f_equal. unfold digit_step. apply to_s64_congr.
  rewrite Z.add_mod, Z.mul_mod, to_s64_mod by lia.
  rewrite <- Z.mul_mod, <- Z.add_mod by lia. reflexivity.
Qed.

Lemma dec_bytes_S : forall f n acc, dec_bytes (S f) n acc =
  if n / 10 =? 0 then (48 + n mod 10) :: acc
  else dec_bytes f (n / 10) ((48 + n mod 10) :: acc).
Proof. reflexivity. Qed.

Lemma is_digit_mod : forall n, is_digit (48 + n mod 10) = true.
Proof.
  intros n. unfold is_digit. apply andb_true_iff.
  change (chr "0") with 48; change (chr "9") with 57.
  pose proof (Z.mod_pos_bound n 10 ltac:(lia)).
  split; apply Z.leb_le; lia.
Qed.

Lemma dec_bytes_spec : forall f n acc, 0 <= n < 10 ^ Z.of_nat (S f) ->
  exists ds, dec_bytes (S f) n acc = ds ++ acc /\ ds <> [] /\
    Forall (fun d => is_digit d = true) ds /\ digits_value ds = n.
Proof.
  induction f as [|f IH]; intros n acc Hn; rewrite dec_bytes_S;
    pose proof (Z.div_mod n 10 ltac:(lia)) as Hdm;
    destruct (Z.eqb_spec (n / 10) 0) as [E|E].
  - exists [48 + n mod 10]. repeat split; try congruence.
    + repeat constructor. apply is_digit_mod.
    + unfold digits_value. cbn [fold_left]. change (chr "0") with 48. lia.
  - exfalso. apply E. apply Z.div_small. simpl in Hn. lia.
  - exists [48 + n mod 10]. repeat split; try congruence.
    + repeat constructor. apply is_digit_mod.
    + unfold digits_value. cbn [fold_left]. change (chr "0") with 48. lia.
  - destruct (IH (n / 10) ((48 + n mod 10) :: acc)) as (ds & H1 & H2 & H3 & H4).
    { split. apply Z.div_pos; lia. apply Z.div_lt_upper_bound; [lia|].
      rewrite Nat2Z.inj_succ, Z.pow_succ_r in Hn by lia. lia. }
    exists (ds ++ [48 + n mod 10]). rewrite H1, <- app_assoc. repeat split.
    + destruct ds; [congruence|discriminate].
    + apply Forall_app. split; auto. repeat constructor. apply is_digit_mod.
    + unfold digits_value in *. rewrite fold_left_app. cbn [fold_left]. rewrite H4.
      change (chr "0") with 48. lia.
Qed.

Lemma digit_range : forall d, is_digit d = true -> 48 <= d <= 57.
Proof. intros d H. unfold is_digit in H. apply andb_true_iff in H as [H1 H2].
  apply Z.leb_le in H1, H2. change (chr "0") with 48 in H1. change (chr "9") with 57 in H2. lia. Qed.

Lemma skip_trivia_stop : forall src fuel f c L,
  c <> 0 -> NE_IS_WHITESPACE c = false -> c <> chr ";" -> c <> chr "#" ->
  skip_trivia src fuel (S f) c L = Some (c, L).
Proof.
  intros src fuel f c L H0 Hw Hs Hh. simpl.
  destruct (Z.eqb_spec c 0); [congruence|]. rewrite Hw.
  destruct (Z.eqb_spec c (chr ";")); [congruence|].
  destruct (Z.eqb_spec c (chr "#")); [congruence|]. reflexivity.
Qed.

Lemma lex_loop_S : forall src fuel f L acc, lex_loop src fuel (S f) L acc =
  obind (lexNext src fuel L) (fun step =>
  match step with
  | StepTok t L' => lex_loop src fuel f L' (t :: acc)
  | StepEOF _ => Some (rev acc, None)
  | StepErr msg L' => Some (rev acc, Some (msg, line L'))
  end).
Proof. reflexivity. Qed.

Lemma lexNext_end : forall src fuel L, cursor L = List.length src ->
  lexNext src fuel L = Some (StepEOF L).
Proof. intros src fuel L H. unfold lexNext. rewrite H, Nat.eqb_refl. reflexivity. Qed.

Lemma digits_step_value : forall d ds,
  fold_left digit_step ds (digit_step 0 d) = to_s64 (digits_value (d :: ds)).
Proof. intros d ds. unfold digit_step at 2. rewrite fold_digit_step. reflexivity. Qed.

Lemma lex_scan_number : forall (neg : bool) d ds,
  Forall (fun d => is_digit d = true) (d :: ds) ->
  let src := (if neg then [chr "-"] else []) ++ d :: ds in
  lex_scan src =
  Some ([mkLexInfo 0 (List.length src) 1 NeToken_Number
           (AInteger (to_s64 ((if neg then -1 else 1) * to_s64 (digits_value (d :: ds)))))],
        None).
Proof.
  intros neg d ds Hd src.
  pose proof Hd as Hd'. apply Forall_cons_iff in Hd' as [Hd0 Hds].
  pose proof (digit_range d Hd0) as Rd.
  unfold lex_scan, lex_fuel. rewrite lex_loop_S.
  unfold lexNext. 
  destruct neg; simpl (Nat.eqb _ _); cbn iota.
  - rewrite (nextChar_plain src (mkLex 1 1 0 0) (chr "-")) by (subst src; simpl; (lia || reflexivity || discriminate)).
    rewrite skip_trivia_stop by (discriminate || reflexivity).
    cbn -[lexNumber lexName lexString lexCharacter lex_loop].
    unfold lexNumber. cbn -[lexNumber lexName lexString lexCharacter lex_loop number_digits].
    replace (d =? 13) with false by (symmetry; apply Z.eqb_neq; lia).
    replace (d =? 10) with false by (symmetry; apply Z.eqb_neq; lia).
    cbn -[lex_loop number_digits].
    rewrite (number_digits_run (45 :: d :: ds) ds) by (simpl; auto; lia).
    rewrite digits_step_value.
    cbn -[lex_loop digits_value to_s64]. rewrite lex_loop_S, lexNext_end by reflexivity.
    reflexivity.
  - rewrite (nextChar_plain src (mkLex 1 1 0 0) d) by (subst src; simpl; (lia || reflexivity || discriminate)).
    rewrite skip_trivia_stop by (try (change (chr ";") with 59); try (change (chr "#") with 35); unfold NE_IS_WHITESPACE;
       try (change (chr " ") with 32); repeat (rewrite (proj2 (Z.eqb_neq _ _)) by lia); (lia || reflexivity)).
    cbn -[lexNumber lexName lexString lexCharacter lex_loop].
    replace (d =? 0) with false by (symmetry; apply Z.eqb_neq; lia).
    unfold lexNumber. rewrite Hd0.
    cbn -[lexName lexString lexCharacter lex_loop number_digits digits_value to_s64].
    rewrite (number_digits_run (d :: ds) ds) by (simpl; auto; lia).
    rewrite digits_step_value.
    cbn -[lex_loop digits_value to_s64]. rewrite lex_loop_S, lexNext_end by reflexivity.
    reflexivity.
Qed.

Lemma to_s64_neg_s64 : forall x, to_s64 (-1 * to_s64 x) = to_s64 (-1 * x).
Proof.
  intros x. apply to_s64_congr.
  rewrite Z.mul_mod, to_s64_mod, <- Z.mul_mod by lia. reflexivity.
Qed.

(** Property (printing and reading integers): for every 64-bit integer,
    the text [NeToString] writes for it ([%lli]), in any mode, is read
    back by [NeRun] as the same integer, with no other effect on the VM. *)
Theorem NeRun_integer_round_trip : forall objectText mode N origin i,
  - 2 ^ 63 <= i < 2 ^ 63 ->
  let t := NeToString_text objectText (AInteger i) mode in
  NeRun N origin t (Z.of_nat (List.length t)) = Some (N, true, AInteger i).
Proof.
  intros objectText mode N origin i Hi t.
  assert (Hsrc : forall N' src, lex_scan src = Some ([mkLexInfo 0 (List.length src) 1 NeToken_Number (AInteger i)], None) ->
    NeRun N' origin src (Z.of_nat (List.length src)) = Some (N', true, AInteger i)).
  { intros N' src Hl. unfold NeRun, source_span.
    destruct (Z.eqb_spec (Z.of_nat (List.length src)) (-1)); [lia|].
    rewrite Nat2Z.id, firstn_all. unfold lex. rewrite Hl. reflexivity. }
  apply Hsrc. subst t. unfold NeToString_text, format_lli.
  destruct (Z.ltb_spec i 0).
  - destruct (dec_bytes_spec 19 (- i) []) as (ds & E & Hne & Hd & Hv).
    { split; [lia|]. change (10 ^ Z.of_nat (S 19)) with 100000000000000000000. lia. }
    rewrite E, app_nil_r. destruct ds as [|d ds]; [congruence|].
    assert (L := lex_scan_number true d ds Hd). cbv zeta iota in L.
    change ([chr "-"] ++ d :: ds) with (chr "-" :: d :: ds) in L.
    rewrite L, Hv, to_s64_neg_s64.
    replace (-1 * - i) with i by lia. rewrite (to_s64_id i) by lia. reflexivity.
  - destruct (dec_bytes_spec 19 i []) as (ds & E & Hne & Hd & Hv).
    { split; [lia|]. change (10 ^ Z.of_nat (S 19)) with 100000000000000000000. lia. }
    rewrite E, app_nil_r. destruct ds as [|d ds]; [congruence|].
    assert (L := lex_scan_number false d ds Hd). cbv zeta iota in L.
    change ([] ++ d :: ds) with (d :: ds) in L.
    rewrite L, Hv, Z.mul_1_l, (to_s64_id i) by lia.
    rewrite (to_s64_id i) by lia. reflexivity.
Qed.

Lemma NeRun_integer_round_trip_witness :
  - 2 ^ 63 <= - 2 ^ 63 < 2 ^ 63 /\
  NeRun (NeOpen true) "w"
    (NeToString_text (fun _ _ => []) (AInteger (- 2 ^ 63)) NSM_Code)
    (Z.of_nat (List.length (NeToString_text (fun _ _ => []) (AInteger (- 2 ^ 63)) NSM_Code)))
  = Some (NeOpen true, true, AInteger (- 2 ^ 63)).
Proof.
  split; [lia|].
  exact (NeRun_integer_round_trip (fun _ _ => []) NSM_Code (NeOpen true) "w" (- 2 ^ 63)
           ltac:(lia)).
Defined.

Lemma NeRun_lexed : forall N origin src res,
  lex_scan src = res ->
  NeRun N origin src (Z.of_nat (List.length src)) =
  obind res (fun '(toks, err) =>
    match err with
    | None => run_tokens N src toks NeMakeNil
    | Some (msg, ln) => Some (lexErrorV N origin ln msg, false, NeMakeNil)
    end).
Proof.
  intros N origin src res H. unfold NeRun, source_span.
  destruct (Z.eqb_spec (Z.of_nat (List.length src)) (-1)); [lia|].
  rewrite Nat2Z.id, firstn_all. unfold lex. rewrite H.
  destruct res as [[toks [[msg ln]|]]|]; reflexivity.
Qed.

Lemma byte_range_In : forall c, -128 <= c <= 127 ->
  In c (map (fun n => Z.of_nat n - 128) (seq 0 256)).
Proof.
  intros c Hc. apply in_map_iff. exists (Z.to_nat (c + 128)). split; [lia|].
  apply in_seq. lia.
Qed.

Lemma character_code_lex : forall c, -128 <= c <= 127 ->
  lex_scan (character_text c NSM_Code) =
  if char_reads_back c
  then Some ([mkLexInfo 0 (List.length (character_text c NSM_Code)) 1
                NeToken_Character (ACharacter c)], None)
  else Some ([], Some ("Unknown character token."%string, 1)).
Proof.
  intros c Hc. apply byte_range_In in Hc.
  repeat (destruct Hc as [<- | Hc]; [vm_compute; reflexivity |]). destruct Hc.
Qed.

(** Property (printing and reading characters): the Code-mode text of a
    character is read back by [NeRun] as the same character exactly for
    the characters 7 to 10, 13 and 17 to 127; for every other [char]
    ([\#x] forms with a digit 0, or eight hex digits for a negative
    [char]) the lexer reports an unknown character token on line 1. *)
Theorem NeRun_character_round_trip : forall objectText N origin c,
  -128 <= c <= 127 ->
  let t := NeToString_text objectText (ACharacter c) NSM_Code in
  NeRun N origin t (Z.of_nat (List.length t)) =
  if char_reads_back c then Some (N, true, ACharacter c)
  else Some (lexErrorV N origin 1 "Unknown character token.", false, ANil).
Proof.
  intros objectText N origin c Hc t. subst t. simpl NeToString_text.
  rewrite (NeRun_lexed N origin _ _ (character_code_lex c Hc)).
  destruct (char_reads_back c); reflexivity.
Qed.

Lemma NeRun_character_round_trip_witness :
  -128 <= 16 <= 127 /\ -128 <= 65 <= 127 /\
  NeRun (NeOpen true) "w" (NeToString_text (fun _ _ => []) (ACharacter 16) NSM_Code)
    (Z.of_nat (List.length (NeToString_text (fun _ _ => []) (ACharacter 16) NSM_Code)))
  = Some (lexErrorV (NeOpen true) "w" 1 "Unknown character token.", false, ANil) /\
  NeRun (NeOpen true) "w" (NeToString_text (fun _ _ => []) (ACharacter 65) NSM_Code)
    (Z.of_nat (List.length (NeToString_text (fun _ _ => []) (ACharacter 65) NSM_Code)))
  = Some (NeOpen true, true, ACharacter 65).
Proof.
  split; [lia|]. split; [lia|]. split.
  - exact (NeRun_character_round_trip (fun _ _ => []) (NeOpen true) "w" 16 ltac:(lia)).
  - exact (NeRun_character_round_trip (fun _ _ => []) (NeOpen true) "w" 65 ltac:(lia)).
Defined.

(** Property (printing and reading Booleans): in every mode the text of a
    Boolean ([yes] or [no]) is read back by [NeRun] as the Boolean
    [NeMakeBool] builds from its truth value. *)
Theorem NeRun_boolean_round_trip : forall objectText mode N origin i,
  let t := NeToString_text objectText (ABoolean i) mode in
  NeRun N origin t (Z.of_nat (List.length t)) = Some (N, true, NeMakeBool (negb (i =? 0))).
Proof.
  intros objectText mode N origin i t. subst t. simpl NeToString_text.
  destruct (i =? 0); (rewrite (NeRun_lexed N origin _ _ eq_refl); vm_compute; reflexivity).
Qed.

(** ** Reserved words, token kinds and the reader loop *)

Lemma bucket_values : forall k, In (nth k gKeyWordHashes 0) [0; 5; 6; 7].
Proof.
  intros k. destruct (Nat.lt_ge_cases k (List.length gKeyWordHashes)) as [H|H].
  - apply (nth_In _ 0) in H. simpl in H |- *. intuition.
  - rewrite nth_overflow by exact H. simpl. auto.
Qed.

Lemma strncmp_eq_full : forall a b,
  List.length a = List.length b -> Forall (fun x => x <> 0) b ->
  strncmp_eq a b (List.length a) = true -> a = b.
Proof.
  induction a as [|x a IH]; intros b Hl Hb H.
  - destruct b; [reflexivity | discriminate].
  - destruct b as [|y b]; [discriminate|]. simpl in H, Hl.
    apply Forall_cons_iff in Hb as [Hy Hb].
    destruct (Z.eqb_spec x y) as [E|E]; [|discriminate]. subst y. simpl in H.
    rewrite (proj2 (Z.eqb_neq x 0) Hy) in H. f_equal. apply IH; auto.
Qed.

Lemma keyword_candidates_exact : forall tokens span index,
  In tokens [0; 5; 6; 7] ->
  keyword_candidates 4 tokens span = Some index ->
  (index = 0 /\ span = bytes_of_string "nil") \/
  (index = 1 /\ span = bytes_of_string "yes") \/
  (index = 2 /\ span = bytes_of_string "no").
Proof.
  intros tokens span index Ht H.
  simpl in Ht. destruct Ht as [<-|[<-|[<-|[<-|[]]]]]; [discriminate| | |];
    cbn - [strncmp_eq Z.eqb Z.of_nat] in H;
    destruct (_ && strncmp_eq _ _ _) eqn:E; try discriminate; inversion H; subst;
    apply andb_true_iff in E as [E1 E2]; apply Z.eqb_eq in E1.
  - left. split; [reflexivity|]. apply strncmp_eq_full; auto.
    + simpl in E1 |- *. lia.
    + repeat constructor; discriminate.
  - right; left. split; [reflexivity|]. apply strncmp_eq_full; auto.
    + simpl in E1 |- *. lia.
    + repeat constructor; discriminate.
  - right; right. split; [reflexivity|]. apply strncmp_eq_full; auto.
    + simpl in E1 |- *. lia.
    + repeat constructor; discriminate.
Qed.

(** Property (reserved words): once the name is scanned, [lexName]
    builds the matching keyword token (spanning the name, carrying nil)
    when the name's bytes are exactly [nil], [yes] or [no], and for every
    other name reports the error [Symbols not implemented yet!]. *)
Theorem lexName_keyword_exact : forall src fuel s0 c L c1 L1,
  name_chars src fuel c L = Some (c1, L1) ->
  let L2 := ungetChar L1 in
  let span := firstn (cursor L2 - s0) (skipn s0 src) in
  lexName src fuel s0 c L =
  Some (if list_eq_dec Z.eq_dec span (bytes_of_string "nil")
        then StepTok (mkLexInfo s0 (cursor L2) (line L2) NeToken_Nil ANil) L2
        else if list_eq_dec Z.eq_dec span (bytes_of_string "yes")
        then StepTok (mkLexInfo s0 (cursor L2) (line L2) NeToken_Yes ANil) L2
        else if list_eq_dec Z.eq_dec span (bytes_of_string "no")
        then StepTok (mkLexInfo s0 (cursor L2) (line L2) NeToken_No ANil) L2
        else StepErr "Symbols not implemented yet!" L2).
Proof.
  intros src fuel s0 c L c1 L1 Hn L2 span. unfold lexName. rewrite Hn. cbn [obind].
  fold L2 span.
  destruct (keyword_candidates 4 _ span) as [index|] eqn:K.
  - destruct (keyword_candidates_exact _ _ _ (bucket_values _) K)
      as [[-> ->]|[[-> ->]|[-> ->]]];
      repeat match goal with
      | |- context [list_eq_dec Z.eq_dec ?x ?y] =>
          destruct (list_eq_dec Z.eq_dec x y) as [E|E];
          [try (vm_compute in E; discriminate) | try (exfalso; apply E; reflexivity)]
      end; reflexivity.
  - destruct (list_eq_dec Z.eq_dec span (bytes_of_string "nil")) as [E|_];
      [rewrite E in K; vm_compute in K; discriminate |].
    destruct (list_eq_dec Z.eq_dec span (bytes_of_string "yes")) as [E|_];
      [rewrite E in K; vm_compute in K; discriminate |].
    destruct (list_eq_dec Z.eq_dec span (bytes_of_string "no")) as [E|_];
      [rewrite E in K; vm_compute in K; discriminate |].
    reflexivity.
Qed.

Lemma lexName_shape : forall src fuel s0 c L t L',
  lexName src fuel s0 c L = Some (StepTok t L') -> lexed_shape t = true.
Proof.
  intros src fuel s0 c L t L' H. unfold lexName in H.
  destruct (name_chars src fuel c L) as [[c1 L1]|]; [|discriminate]. cbn [obind] in H.
  destruct (keyword_candidates 4 _ _) as [index|] eqn:K; [|discriminate].
  inversion H; subst; clear H.
  destruct (keyword_candidates_exact _ _ _ (bucket_values _) K)
    as [[-> _]|[[-> _]|[-> _]]]; reflexivity.
Qed.

Ltac solve_shape H :=
  repeat match type of H with
  | context [match ?x with _ => _ end] => destruct x eqn:?
  | context [obind ?x _] => destruct x eqn:?; cbn [obind] in H
  end;
  try discriminate; inversion H; subst; reflexivity.

Lemma lexNext_shape : forall src fuel L t L',
  lexNext src fuel L = Some (StepTok t L') -> lexed_shape t = true.
Proof.
  intros src fuel L t L' H. unfold lexNext in H.
  destruct (Nat.eqb _ _); [discriminate|].
  destruct (nextChar src L) as [c0 L1].
  destruct (skip_trivia src fuel fuel c0 L1) as [[c L2]|]; cbn [obind] in H; [|discriminate].
  destruct (c =? 0); [discriminate|].
  destruct (_ || _ || _).
  - unfold lexNumber in H. destruct (if is_digit c then _ else _) as [[sg c1] L3].
    destruct (number_digits src fuel c1 0 L3) as [[ip L4]|]; cbn [obind] in H; [|discriminate].
    inversion H; reflexivity.
  - destruct (gNameChar c =? 1); [eapply lexName_shape; exact H|].
    destruct (c =? QUOTE).
    + unfold lexString in H. destruct (nextChar src L2) as [c1 L3].
      destruct (string_chars src fuel c1 L3) as [[c2 L4]|]; cbn [obind] in H; [|discriminate].
      destruct (c2 =? QUOTE); inversion H; reflexivity.
    + destruct (c =? chr "\"); [|discriminate].
      unfold lexCharacter, lexCharTail, charTok in H.
      solve_shape H.
Qed.

Lemma lex_loop_shapes : forall src fuel f L acc toks err,
  Forall (fun t => lexed_shape t = true) acc ->
  lex_loop src fuel f L acc = Some (toks, err) ->
  Forall (fun t => lexed_shape t = true) toks.
Proof.
  intros src fuel f. induction f as [|f IH]; intros L acc toks err Hacc H; [discriminate|].
  simpl in H. destruct (lexNext src fuel L) as [step|] eqn:E; [|discriminate].
  cbn [obind] in H. destruct step as [t L'|L'|msg L'].
  - eapply IH; [|exact H]. constructor; [eapply lexNext_shape; exact E | exact Hacc].
  - inversion H; subst. apply Forall_rev. exact Hacc.
  - inversion H; subst. apply Forall_rev. exact Hacc.
Qed.

(** Property (token kinds): the tokens of a scan, whether it ends at the
    end of input or at a lex error, are only Number tokens carrying an
    integer, Character tokens carrying a character, and String, nil, yes
    and no tokens carrying nil: the lexer never builds a Symbol, Unknown,
    Error or EOF token. *)
Theorem lex_scan_token_shapes : forall src toks err,
  lex_scan src = Some (toks, err) ->
  Forall (fun t => lexed_shape t = true) toks.
Proof. intros src toks err H. eapply lex_loop_shapes; [constructor | exact H]. Qed.

Lemma run_tokens_app : forall ts1 ts2 N src out N1 r1,
  run_tokens N src ts1 out = Some (N1, true, r1) ->
  run_tokens N src (ts1 ++ ts2) out = run_tokens N1 src ts2 r1.
Proof.
  induction ts1 as [|t ts1 IH]; intros ts2 N src out N1 r1 H.
  - simpl in H. inversion H; subst. reflexivity.
  - cbn [run_tokens app] in H |- *.
    destruct (nextAtom N src t out) as [[[Na ok] a]|]; simpl in H |- *; [|discriminate].
    destruct ok; simpl in H |- *; [|discriminate].
    destruct (eval Na a) as [ok2 r]. destruct ok2; simpl in H |- *; [|discriminate].
    apply IH. exact H.
Qed.

Lemma run_tokens_no_nil : forall toks N src out,
  objectType N (stringType N) = strObjectInfo ->
  Forall (fun t => lexed_shape t = true /\ li_token t <> NeToken_Nil) toks ->
  strings_created src toks ->
  exists N' r, run_tokens N src toks out = Some (N', true, r) /\
  objectInfo N' = objectInfo N /\ stringType N' = stringType N /\
  List.length (gcObjs N') = (List.length (gcObjs N) + List.length (filter is_string_token toks))%nat.
Proof.
  induction toks as [|t toks IH]; intros N src out Hst Hf Hc.
  - exists N, out. simpl. repeat split. lia.
  - apply Forall_cons_iff in Hf as [[Hs Hn] Hf].
    apply Forall_cons_iff in Hc as [Hc1 Hc].
    unfold lexed_shape in Hs. cbn [run_tokens filter].
    unfold nextAtom, is_string_token at 1. unfold is_string_token in Hc1.
    destruct (li_token t) eqn:Ek; try discriminate; try (exfalso; apply Hn; reflexivity);
      destruct (li_atom t) eqn:Ea; try discriminate; cbn [obind negb eval NeMakeBool].
    + destruct (IH N src (AInteger i) Hst Hf Hc) as (N' & r & E & H).
      rewrite E. eauto.
    + destruct (IH N src (ACharacter c) Hst Hf Hc) as (N' & r & E & H).
      rewrite E. eauto.
    + specialize (Hc1 eq_refl).
      unfold NeMakeStringRanged, NeObjectCreate_run. rewrite Hst. cbn [createFn createStops strObjectInfo].
      rewrite Hc1. cbn [andb obind].
      unfold NeObjectCreate. rewrite Hst. simpl.
      set (N1 := set_gcObjs _ _).
      assert (Hst1 : objectType N1 (stringType N1) = strObjectInfo) by exact Hst.
      unfold objectEval, objectTypeOf. simpl. rewrite Nat.eqb_refl. simpl.
      change (objectType N1 (stringType N)) with (objectType N1 (stringType N1)).
      rewrite Hst1. simpl.
      destruct (IH N1 src (AObject (nextObj N)) Hst1 Hf Hc) as (N' & r & E & H1 & H2 & H3).
      rewrite E. exists N', r. split; [reflexivity |].
      rewrite H1, H2, H3. simpl. auto.
    + destruct (IH N src (NeMakeBool true) Hst Hf Hc) as (N' & r & E & H).
      rewrite E. eauto.
    + destruct (IH N src (NeMakeBool false) Hst Hf Hc) as (N' & r & E & H).
      rewrite E. eauto.
Qed.

(** Property (reader loop without nil): on a VM whose string type is the
    built-in one, when the scan succeeds, has no nil token and every
    string literal passes the assertion of [stringCreate], [NeRun] reads
    and evaluates every token and returns success; the type registry is
    unchanged and each string literal adds one object to the GC list. *)
Theorem NeRun_without_nil : forall N origin source size toks,
  objectType N (stringType N) = strObjectInfo ->
  lex_scan (source_span source size) = Some (toks, None) ->
  Forall (fun t => li_token t <> NeToken_Nil) toks ->
  strings_created (source_span source size) toks ->
  exists N' r, NeRun N origin source size = Some (N', true, r) /\
    objectInfo N' = objectInfo N /\
    List.length (gcObjs N') = (List.length (gcObjs N) + List.length (filter is_string_token toks))%nat.
Proof.
  intros N origin source size toks Hst Hl Hn Hc.
  pose proof (lex_loop_shapes _ _ _ _ _ _ _ (Forall_nil _) Hl) as Hs.
  assert (Hf : Forall (fun t => lexed_shape t = true /\ li_token t <> NeToken_Nil) toks)
    by (apply Forall_and; assumption).
  destruct (run_tokens_no_nil toks N (source_span source size) NeMakeNil Hst Hf Hc)
    as (N' & r & E & H2 & _ & H4).
  unfold NeRun, lex. rewrite Hl. cbn [obind negb]. rewrite E.
  exists N', r. auto.
Qed.

(** Property (no rollback at nil): when the first nil token of a scan
    comes after tokens [ts1] whose string literals pass the assertion of
    [stringCreate], [NeRun] returns failure with the VM and the output
    slot left by reading [ts1]: the string objects created before the nil
    stay on the GC list and the output holds the value of the last token
    before it. *)
Theorem NeRun_stops_at_nil : forall N origin source size ts1 t ts2,
  objectType N (stringType N) = strObjectInfo ->
  lex_scan (source_span source size) = Some (ts1 ++ t :: ts2, None) ->
  Forall (fun t => li_token t <> NeToken_Nil) ts1 ->
  strings_created (source_span source size) ts1 ->
  li_token t = NeToken_Nil ->
  exists N1 r1,
  run_tokens N (source_span source size) ts1 NeMakeNil = Some (N1, true, r1) /\
  NeRun N origin source size = Some (N1, false, r1) /\
  List.length (gcObjs N1) = (List.length (gcObjs N) + List.length (filter is_string_token ts1))%nat.
Proof.
  intros N origin source size ts1 t ts2 Hst Hl Hn Hc Ht.
  pose proof (lex_loop_shapes _ _ _ _ _ _ _ (Forall_nil _) Hl) as Hs. apply Forall_app in Hs as [Hs1 _].
  assert (Hf : Forall (fun t => lexed_shape t = true /\ li_token t <> NeToken_Nil) ts1)
    by (apply Forall_and; assumption).
  destruct (run_tokens_no_nil ts1 N (source_span source size) NeMakeNil Hst Hf Hc)
    as (N1 & r1 & E & _ & _ & H4).
  exists N1, r1. split; [exact E |]. split; [| exact H4].
  unfold NeRun, lex. rewrite Hl. cbn [obind negb].
  rewrite (run_tokens_app ts1 (t :: ts2) N _ NeMakeNil N1 r1 E).
  simpl. unfold nextAtom. rewrite Ht. reflexivity.
Qed.

(** Property (failed string assertion): when the scan succeeds and, after
    tokens without nil whose string literals pass, a string literal's
    bytes fail the assertion [j == len] of [stringCreate] (as the raw span
    of three backslashes does), the program stops in the create callback:
    [NeRun] does not return. *)
Theorem NeRun_string_assert_stops : forall N origin source size ts1 t ts2,
  objectType N (stringType N) = strObjectInfo ->
  lex_scan (source_span source size) = Some (ts1 ++ t :: ts2, None) ->
  Forall (fun t => li_token t <> NeToken_Nil) ts1 ->
  strings_created (source_span source size) ts1 ->
  li_token t = NeToken_String ->
  StringType.string_create_stops (token_span (source_span source size) t) = true ->
  NeRun N origin source size = None.
Proof.
  intros N origin source size ts1 t ts2 Hst Hl Hn Hc Ht Hstop.
  pose proof (lex_loop_shapes _ _ _ _ _ _ _ (Forall_nil _) Hl) as Hs. apply Forall_app in Hs as [Hs1 _].
  assert (Hf : Forall (fun t => lexed_shape t = true /\ li_token t <> NeToken_Nil) ts1)
    by (apply Forall_and; assumption).
  destruct (run_tokens_no_nil ts1 N (source_span source size) NeMakeNil Hst Hf Hc)
    as (N1 & r1 & E & H1 & H2 & _).
  unfold NeRun, lex. rewrite Hl. cbn [obind negb].
  rewrite (run_tokens_app ts1 (t :: ts2) N _ NeMakeNil N1 r1 E).
  assert (Hst1 : objectType N1 (stringType N1) = strObjectInfo)
    by (unfold objectType in *; rewrite H1, H2; exact Hst).
  cbn [run_tokens]. unfold nextAtom. rewrite Ht.
  unfold NeMakeStringRanged, NeObjectCreate_run. rewrite Hst1.
  cbn [createFn createStops strObjectInfo andb]. rewrite Hstop. reflexivity.
Qed.

Lemma lexName_keyword_exact_witness :
  name_chars (bytes_of_string "nerd") 5 (chr "n") (mkLex 1 1 1 0) = Some (0, mkLex 1 1 4 4) /\
  lexName (bytes_of_string "nerd") 5 0 (chr "n") (mkLex 1 1 1 0) =
  Some (if list_eq_dec Z.eq_dec (firstn (4 - 0) (skipn 0 (bytes_of_string "nerd"))) (bytes_of_string "nil")
        then StepTok (mkLexInfo 0 4 1 NeToken_Nil ANil) (mkLex 1 1 4 4)
        else if list_eq_dec Z.eq_dec (firstn (4 - 0) (skipn 0 (bytes_of_string "nerd"))) (bytes_of_string "yes")
        then StepTok (mkLexInfo 0 4 1 NeToken_Yes ANil) (mkLex 1 1 4 4)
        else if list_eq_dec Z.eq_dec (firstn (4 - 0) (skipn 0 (bytes_of_string "nerd"))) (bytes_of_string "no")
        then StepTok (mkLexInfo 0 4 1 NeToken_No ANil) (mkLex 1 1 4 4)
        else StepErr "Symbols not implemented yet!" (mkLex 1 1 4 4)).
Proof.
  split; [vm_compute; reflexivity |].
  exact (lexName_keyword_exact (bytes_of_string "nerd") 5 0 (chr "n") (mkLex 1 1 1 0)
           0 (mkLex 1 1 4 4) ltac:(vm_compute; reflexivity)).
Defined.

Lemma lex_scan_token_shapes_witness :
  lex_scan string_then_nil_example
    = Some ([mkLexInfo 0 1 1 NeToken_Number (AInteger 1);
             mkLexInfo 3 5 1 NeToken_String ANil;
             mkLexInfo 7 10 1 NeToken_Nil ANil;
             mkLexInfo 11 12 1 NeToken_Number (AInteger 2)], None) /\
  Forall (fun t => lexed_shape t = true)
    [mkLexInfo 0 1 1 NeToken_Number (AInteger 1);
     mkLexInfo 3 5 1 NeToken_String ANil;
     mkLexInfo 7 10 1 NeToken_Nil ANil;
     mkLexInfo 11 12 1 NeToken_Number (AInteger 2)].
Proof.
  split; [vm_compute; reflexivity|].
  apply (lex_scan_token_shapes string_then_nil_example _ None). vm_compute. reflexivity.
Defined.

Lemma NeRun_without_nil_witness :
  objectType (NeOpen true) (stringType (NeOpen true)) = strObjectInfo /\
  lex_scan (source_span string_number_example (-1))
    = Some ([mkLexInfo 1 3 1 NeToken_String ANil;
             mkLexInfo 5 6 1 NeToken_Number (AInteger 1)], None) /\
  Forall (fun t => li_token t <> NeToken_Nil)
    [mkLexInfo 1 3 1 NeToken_String ANil; mkLexInfo 5 6 1 NeToken_Number (AInteger 1)] /\
  strings_created (source_span string_number_example (-1))
    [mkLexInfo 1 3 1 NeToken_String ANil; mkLexInfo 5 6 1 NeToken_Number (AInteger 1)] /\
  exists N' r, NeRun (NeOpen true) "w" string_number_example (-1) = Some (N', true, r) /\
    objectInfo N' = objectInfo (NeOpen true) /\
    List.length (gcObjs N') = (List.length (gcObjs (NeOpen true))
      + List.length (filter is_string_token
          [mkLexInfo 1 3 1 NeToken_String ANil;
           mkLexInfo 5 6 1 NeToken_Number (AInteger 1)]))%nat.
Proof.
  assert (H1 : lex_scan (source_span string_number_example (-1))
    = Some ([mkLexInfo 1 3 1 NeToken_String ANil;
             mkLexInfo 5 6 1 NeToken_Number (AInteger 1)], None)) by (vm_compute; reflexivity).
  assert (H2 : Forall (fun t => li_token t <> NeToken_Nil)
    [mkLexInfo 1 3 1 NeToken_String ANil; mkLexInfo 5 6 1 NeToken_Number (AInteger 1)])
    by (repeat constructor; discriminate).
  assert (H3 : strings_created (source_span string_number_example (-1))
    [mkLexInfo 1 3 1 NeToken_String ANil; mkLexInfo 5 6 1 NeToken_Number (AInteger 1)])
    by (repeat constructor; intro H; vm_compute in H |- *; first [reflexivity | discriminate]).
  split; [reflexivity|]. split; [exact H1|]. split; [exact H2|]. split; [exact H3|].
  exact (NeRun_without_nil (NeOpen true) "w" string_number_example (-1) _
           eq_refl H1 H2 H3).
Defined.

Lemma NeRun_stops_at_nil_witness :
  objectType (NeOpen true) (stringType (NeOpen true)) = strObjectInfo /\
  lex_scan (source_span string_then_nil_example (-1))
    = Some ([mkLexInfo 0 1 1 NeToken_Number (AInteger 1);
             mkLexInfo 3 5 1 NeToken_String ANil]
            ++ mkLexInfo 7 10 1 NeToken_Nil ANil
            :: [mkLexInfo 11 12 1 NeToken_Number (AInteger 2)], None) /\
  Forall (fun t => li_token t <> NeToken_Nil)
    [mkLexInfo 0 1 1 NeToken_Number (AInteger 1); mkLexInfo 3 5 1 NeToken_String ANil] /\
  strings_created (source_span string_then_nil_example (-1))
    [mkLexInfo 0 1 1 NeToken_Number (AInteger 1); mkLexInfo 3 5 1 NeToken_String ANil] /\
  li_token (mkLexInfo 7 10 1 NeToken_Nil ANil) = NeToken_Nil /\
  exists N1 r1,
  run_tokens (NeOpen true) (source_span string_then_nil_example (-1))
    [mkLexInfo 0 1 1 NeToken_Number (AInteger 1); mkLexInfo 3 5 1 NeToken_String ANil]
    NeMakeNil = Some (N1, true, r1) /\
  NeRun (NeOpen true) "w" string_then_nil_example (-1) = Some (N1, false, r1) /\
  List.length (gcObjs N1) = (List.length (gcObjs (NeOpen true))
    + List.length (filter is_string_token
        [mkLexInfo 0 1 1 NeToken_Number (AInteger 1);
         mkLexInfo 3 5 1 NeToken_String ANil]))%nat.
Proof.
  assert (H1 : lex_scan (source_span string_then_nil_example (-1))
    = Some ([mkLexInfo 0 1 1 NeToken_Number (AInteger 1);
             mkLexInfo 3 5 1 NeToken_String ANil]
            ++ mkLexInfo 7 10 1 NeToken_Nil ANil
            :: [mkLexInfo 11 12 1 NeToken_Number (AInteger 2)], None))
    by (vm_compute; reflexivity).
  assert (H2 : Forall (fun t => li_token t <> NeToken_Nil)
    [mkLexInfo 0 1 1 NeToken_Number (AInteger 1); mkLexInfo 3 5 1 NeToken_String ANil])
    by (repeat constructor; discriminate).
  assert (H3 : strings_created (source_span string_then_nil_example (-1))
    [mkLexInfo 0 1 1 NeToken_Number (AInteger 1); mkLexInfo 3 5 1 NeToken_String ANil])
    by (repeat constructor; intro H; vm_compute in H |- *; first [reflexivity | discriminate]).
  split; [reflexivity|]. split; [exact H1|]. split; [exact H2|]. split; [exact H3|].
  split; [reflexivity|].
  exact (NeRun_stops_at_nil (NeOpen true) "w" string_then_nil_example (-1)
           _ (mkLexInfo 7 10 1 NeToken_Nil ANil) _ eq_refl H1 H2 H3 eq_refl).
Defined.

Lemma NeRun_string_assert_stops_witness :
  objectType (NeOpen true) (stringType (NeOpen true)) = strObjectInfo /\
  lex_scan (source_span triple_backslash_example (-1))
    = Some ([mkLexInfo 0 1 1 NeToken_Number (AInteger 1)]
            ++ mkLexInfo 3 6 1 NeToken_String ANil :: [], None) /\
  Forall (fun t => li_token t <> NeToken_Nil) [mkLexInfo 0 1 1 NeToken_Number (AInteger 1)] /\
  strings_created (source_span triple_backslash_example (-1))
    [mkLexInfo 0 1 1 NeToken_Number (AInteger 1)] /\
  li_token (mkLexInfo 3 6 1 NeToken_String ANil) = NeToken_String /\
  StringType.string_create_stops
    (token_span (source_span triple_backslash_example (-1)) (mkLexInfo 3 6 1 NeToken_String ANil))
    = true /\
  NeRun (NeOpen true) "w" triple_backslash_example (-1) = None.
Proof.
  assert (H1 : lex_scan (source_span triple_backslash_example (-1))
    = Some ([mkLexInfo 0 1 1 NeToken_Number (AInteger 1)]
            ++ mkLexInfo 3 6 1 NeToken_String ANil :: [], None)) by (vm_compute; reflexivity).
  assert (H2 : Forall (fun t => li_token t <> NeToken_Nil)
    [mkLexInfo 0 1 1 NeToken_Number (AInteger 1)]) by (repeat constructor; discriminate).
  assert (H3 : strings_created (source_span triple_backslash_example (-1))
    [mkLexInfo 0 1 1 NeToken_Number (AInteger 1)])
    by (repeat constructor; intro H; vm_compute in H |- *; first [reflexivity | discriminate]).
  assert (H4 : StringType.string_create_stops
    (token_span (source_span triple_backslash_example (-1)) (mkLexInfo 3 6 1 NeToken_String ANil))
    = true) by (vm_compute; reflexivity).
  split; [reflexivity|]. split; [exact H1|]. split; [exact H2|]. split; [exact H3|].
  split; [reflexivity|]. split; [exact H4|].
  exact (NeRun_string_assert_stops (NeOpen true) "w" triple_backslash_example (-1)
           _ (mkLexInfo 3 6 1 NeToken_String ANil) [] eq_refl H1 H2 H3 eq_refl H4).
Defined.

(** ** The string type *)

Module StringProps.
Import StringType ArenaOps ArenaProps ArenaClaims StringPrint.

Lemma count_len_nonneg : forall s, 0 <= count_len s.
Proof.
  induction s as [|c s IH]; simpl; [lia|].
  destruct (c =? 92); [destruct s as [|d s']; [|destruct (d =? 92)]|]; lia.
Qed.

Lemma count_len_cons : forall c s, count_len (c :: s) =
  (if c =? 92 then match s with d :: _ => if d =? 92 then 1 else 0 | [] => 0 end
   else 1) + count_len s.
Proof. reflexivity. Qed.

Lemma count_len_cons_ge : forall c s, count_len s <= count_len (c :: s).
Proof.
  intros c s. rewrite count_len_cons.
  destruct (c =? 92); [destruct s as [|d s']; [|destruct (d =? 92)]|]; lia.
Qed.

Lemma count_len_plain : forall c s, c <> 92 -> count_len (c :: s) = 1 + count_len s.
Proof. intros c s H. rewrite count_len_cons, (proj2 (Z.eqb_neq c 92) H). reflexivity. Qed.

Lemma count_len_bs : forall d s,
  count_len (92 :: d :: s) = (if d =? 92 then 1 else 0) + count_len (d :: s).
Proof. reflexivity. Qed.

Lemma fill_bs : forall d s, fill (92 :: d :: s) = decode d :: fill s.
Proof. reflexivity. Qed.

Lemma fill_plain : forall c s, c <> 92 -> fill (c :: s) = c :: fill s.
Proof. intros c s H. simpl. rewrite (proj2 (Z.eqb_neq c 92) H). reflexivity. Qed.

Lemma fill_within_count : forall s, Z.of_nat (List.length (fill s)) <= count_len s.
Proof.
  fix IH 1. intros [|c s]; [simpl; lia|].
  destruct (Z.eqb_spec c 92) as [E|E].
  - subst c. destruct s as [|d s']; [simpl; lia|].
    rewrite fill_bs, count_len_bs. cbn [List.length]. rewrite Nat2Z.inj_succ.
    specialize (IH s'). pose proof (count_len_cons_ge d s').
    destruct (Z.eqb_spec d 92).
    + subst d. pose proof (count_len_cons_ge 92 s'). lia.
    + rewrite count_len_plain by assumption. lia.
  - rewrite fill_plain, count_len_plain by assumption.
    cbn [List.length]. rewrite Nat2Z.inj_succ. specialize (IH s). lia.
Qed.

Lemma no_triple_tail : forall c s,
  ~ (exists p q, c :: s = p ++ [92; 92; 92] ++ q) ->
  ~ (exists p q, s = p ++ [92; 92; 92] ++ q).
Proof.
  intros c s H [p [q E]]. apply H. exists (c :: p), q. rewrite E. reflexivity.
Qed.

Lemma count_fill_exact : forall s,
  ~ (exists p q, s = p ++ [92; 92; 92] ++ q) ->
  count_len s = Z.of_nat (List.length (fill s)).
Proof.
  fix IH 1. intros [|c s] Hs; [reflexivity|].
  pose proof (no_triple_tail _ _ Hs) as Hs1.
  destruct (Z.eqb_spec c 92) as [E|E].
  - subst c. destruct s as [|d s']; [reflexivity|].
    pose proof (no_triple_tail _ _ Hs1) as Hs2.
    pose proof (IH s' Hs2) as IHs'.
    rewrite fill_bs, count_len_bs. cbn [List.length]. rewrite Nat2Z.inj_succ.
    destruct (Z.eqb_spec d 92) as [Ed|Ed].
    + subst d. destruct s' as [|x s'']; [reflexivity|].
      destruct (Z.eqb_spec x 92) as [Ex|Ex].
      * exfalso. apply Hs. exists [], s''. subst x. reflexivity.
      * rewrite count_len_cons, (proj2 (Z.eqb_neq x 92) Ex). simpl Z.eqb. cbn iota. lia.
    + rewrite count_len_plain by assumption. lia.
  - rewrite fill_plain, count_len_plain by assumption.
    cbn [List.length]. rewrite Nat2Z.inj_succ, (IH s Hs1). lia.
Qed.

Lemma list_set_app : forall {A} (pre rest : list A) x v,
  list_set (pre ++ x :: rest) (List.length pre) v = pre ++ v :: rest.
Proof. induction pre as [|y pre IH]; intros rest x v; simpl; [reflexivity|]. rewrite IH. reflexivity. Qed.

Lemma write_at_app : forall {A} (bs pre rest : list A),
  (List.length bs <= List.length rest)%nat ->
  write_at (pre ++ rest) (List.length pre) bs = pre ++ bs ++ skipn (List.length bs) rest.
Proof.
  induction bs as [|b bs IH]; intros pre rest H; [reflexivity|].
  destruct rest as [|x rest]; simpl in H; [lia|].
  simpl. rewrite list_set_app.
  replace (pre ++ b :: rest) with ((pre ++ [b]) ++ rest) by (rewrite <- app_assoc; reflexivity).
  replace (S (List.length pre)) with (List.length (pre ++ [b])) by (rewrite length_app; simpl; lia).
  rewrite IH by lia. rewrite <- app_assoc. reflexivity.
Qed.

Lemma no_triple_firstn : forall n r,
  ~ (exists p q, r = p ++ [92; 92; 92] ++ q) ->
  ~ (exists p q, firstn n r = p ++ [92; 92; 92] ++ q).
Proof.
  intros n r H (p & q & E). apply H. exists p, (q ++ skipn n r).
  rewrite <- (firstn_skipn n r) at 1. rewrite E, <- !app_assoc. reflexivity.
Qed.

Lemma str_span_short : forall r,
  Z.of_nat (List.length r) < 2 ^ 31 -> str_span r = r.
Proof.
  intros r H. unfold str_span, to_s32.
  rewrite Z.mod_small by lia.
  replace (Z.of_nat (List.length r) >=? 2 ^ 31) with false by (symmetry; rewrite Z.geb_leb; apply Z.leb_gt; lia).
  rewrite Nat2Z.id. apply firstn_all.
Qed.

Lemma stringCreate_buffer : forall r,
  count_len (str_span r) = Z.of_nat (List.length (fill (str_span r))) ->
  so_size (fst (stringCreate r)) = Z.of_nat (List.length (fill (str_span r))) /\
  so_str (fst (stringCreate r)) = map Some (fill (str_span r)) ++ [Some 0].
Proof.
  intros r H. unfold stringCreate. cbn [fst so_size so_str].
  set (s := str_span r) in *. rewrite H. split; [reflexivity|].
  rewrite Nat2Z.id. replace (Z.to_nat (Z.of_nat (List.length (fill s)) + 1))
    with (S (List.length (fill s))) by lia.
  cbn [repeat]. rewrite repeat_cons.
  pose proof (write_at_app (map Some (fill s)) [] (repeat None (List.length (fill s)) ++ [None])) as W.
  simpl in W. rewrite W by (rewrite length_app, repeat_length, length_map; simpl; lia).
  rewrite length_map, skipn_app, skipn_all2 by (rewrite repeat_length; lia).
  rewrite repeat_length, Nat.sub_diag. simpl.
  rewrite <- (length_map Some (fill s)). rewrite (list_set_app (map Some (fill s)) [] None (Some 0)). reflexivity.
Qed.

Lemma so_bytes_buffer : forall r,
  count_len (str_span r) = Z.of_nat (List.length (fill (str_span r))) ->
  so_bytes (fst (stringCreate r)) = fill (str_span r).
Proof.
  intros r Hc. destruct (stringCreate_buffer r Hc) as [Hs Hb].
  unfold so_bytes. rewrite Hs, Hb, Nat2Z.id.
  rewrite <- (length_map Some (fill (str_span r))), firstn_app, Nat.sub_diag, firstn_all. simpl.
  rewrite app_nil_r, map_map. apply map_id.
Qed.

Lemma stringCreate_fields : forall r,
  snd (stringCreate r) = Z.of_nat (List.length (fill (str_span r))) /\
  so_size (fst (stringCreate r)) = count_len (str_span r).
Proof. intros r. split; reflexivity. Qed.

Lemma assert_count : forall r,
  snd (stringCreate r) = so_size (fst (stringCreate r)) ->
  count_len (str_span r) = Z.of_nat (List.length (fill (str_span r))).
Proof.
  intros r H. destruct (stringCreate_fields r) as [E S]. congruence.
Qed.

Lemma escape_byte_shape : forall c,
  (exists x, escape_byte c = [92; x] /\ decode x = c /\ x <> 92) \/ escape_byte c = [c].
Proof.
  intros c. unfold escape_byte.
  destruct (Z.eqb_spec c 10); [left; exists (chr "n"); subst; repeat split; cbv; congruence|].
  destruct (Z.eqb_spec c 13); [left; exists (chr "r"); subst; repeat split; cbv; congruence|].
  destruct (Z.eqb_spec c 9); [left; exists (chr "t"); subst; repeat split; cbv; congruence|].
  destruct (Z.eqb_spec c 8); [left; exists (chr "b"); subst; repeat split; cbv; congruence|].
  right; reflexivity.
Qed.

Lemma escape_fill : forall w, ~ In 92 w ->
  fill (flat_map escape_byte w) = w /\
  count_len (flat_map escape_byte w) = Z.of_nat (List.length w).
Proof.
  induction w as [|c w IH]; intros Hw; [split; reflexivity|].
  assert (Hc : c <> 92) by (intro; apply Hw; left; auto).
  assert (Hw' : ~ In 92 w) by (intro; apply Hw; right; auto).
  destruct (IH Hw') as [F C]. simpl flat_map.
  cbn [List.length]. rewrite Nat2Z.inj_succ.
  destruct (escape_byte_shape c) as [(x & E & D & Hx) | E]; rewrite E; simpl app.
  - rewrite fill_bs, count_len_bs, count_len_plain, F, C, D by assumption.
    rewrite (proj2 (Z.eqb_neq x 92) Hx). split; [reflexivity | lia].
  - rewrite fill_plain, count_len_plain, F, C by assumption. split; [reflexivity | lia].
Qed.

Lemma escape_text_byte : forall c,
  match escape_text c with
  | Some t => t = escape_byte c
  | None => escape_byte c = [c]
  end.
Proof.
  intros c. unfold escape_text, escape_byte.
  destruct (c =? 10); [reflexivity|]. destruct (c =? 13); [reflexivity|].
  destruct (c =? 9); [reflexivity|]. destruct (c =? 8); reflexivity.
Qed.

Lemma map_seq_nth_eq : forall (f : nat -> Z) (l : list Z),
  (forall i, (i < List.length l)%nat -> f i = nth i l 0) ->
  map f (seq 0 (List.length l)) = l.
Proof.
  intros f l H. apply nth_ext with (d := 0) (d' := 0).
  - rewrite length_map, length_seq. reflexivity.
  - intros n Hn. rewrite length_map, length_seq in Hn.
    rewrite (nth_indep _ 0 (f 0%nat)) by (rewrite length_map, length_seq; lia).
    rewrite map_nth, seq_nth by lia. simpl. apply H. lia.
Qed.

Lemma extends_text : forall a a' t,
  arena_extends a a' t -> arena_text a a' = t.
Proof.
  intros a a' t (_ & _ & Hc & _ & Ht). unfold arena_text.
  rewrite Hc. replace (cursor a + Z.of_nat (List.length t) - cursor a)
    with (Z.of_nat (List.length t)) by lia.
  rewrite Nat2Z.id. apply map_seq_nth_eq. exact Ht.
Qed.

Lemma extends_space : forall a a' t,
  arena_extends a a' t -> arenaSpace a' = arenaSpace a - Z.of_nat (List.length t).
Proof.
  intros a a' t (Hs & He & Hc & _). unfold arenaSpace. rewrite Hs, He, Hc. lia.
Qed.

Lemma extends_trans : forall a a1 a2 t1 t2,
  arena_extends a a1 t1 -> arena_extends a1 a2 t2 -> arena_extends a a2 (t1 ++ t2).
Proof.
  intros a a1 a2 t1 t2 (S1 & E1 & C1 & M1 & T1) (S2 & E2 & C2 & M2 & T2).
  unfold arena_extends. rewrite length_app.
  split; [congruence|]. split; [congruence|]. split; [lia|]. split.
  - intros x Hx. rewrite M2 by lia. apply M1. exact Hx.
  - intros i Hi. destruct (Nat.lt_ge_cases i (List.length t1)) as [Hl|Hl].
    + rewrite M2 by lia. rewrite app_nth1 by exact Hl. apply T1. exact Hl.
    + rewrite app_nth2 by exact Hl.
      replace (cursor a + Z.of_nat i) with (cursor a1 + Z.of_nat (i - List.length t1)) by lia.
      apply T2. lia.
Qed.

Section Scratch.
Variable relocate : Z -> Z -> Z.

Lemma scratch_format_fit : forall a t,
  Z.of_nat (List.length t) < arenaSpace a -> Z.of_nat (List.length t) < 2 ^ 31 - 1 ->
  exists a', NeScratchFormat relocate a t = Some a' /\ arena_extends a a' t.
Proof.
  intros a t Hfit Hlen.
  destruct (format_fields relocate a t false Hlen (or_introl Hfit))
    as (a' & E & Hc & _ & Hm & Ht & _ & _ & Hse).
  exists a'. unfold NeScratchFormat. rewrite E. split; [reflexivity|].
  destruct (Hse Hfit) as [Hs He].
  rewrite (proj2 (Z.ltb_lt _ _) Hfit) in Hc.
  unfold arena_extends. repeat split; auto. lia.
Qed.

Lemma scratch_add_char_fit : forall a c,
  0 < arenaSpace a ->
  arena_extends a (NeScratchAddChar relocate a c) [c].
Proof.
  intros a c H. unfold NeScratchAddChar, arenaAlloc.
  rewrite ens_noop by (unfold arenaSpace in H; lia). simpl.
  unfold arena_extends. simpl. repeat split; try lia.
  - intros x Hx. unfold upd. destruct (Z.eqb_spec x (cursor a)); [lia | reflexivity].
  - intros i Hi. destruct i as [|i]; [|lia]. unfold upd. rewrite Z.add_0_r, Z.eqb_refl. reflexivity.
Qed.

Lemma scratch_add_text : forall a bs,
  arena_text a (NeScratchAdd relocate a bs) = bs.
Proof.
  intros a bs. unfold NeScratchAdd, arenaAlloc, arena_text. simpl.
  rewrite ens_cursor, ens_mem.
  replace (cursor a + Z.of_nat (List.length bs) - cursor a)
    with (Z.of_nat (List.length bs)) by lia.
  rewrite Nat2Z.id. apply map_seq_nth_eq. intros i Hi.
  apply write_list_nth. exact Hi.
Qed.

Lemma code_loop_fit : forall bs a,
  Z.of_nat (List.length (flat_map escape_byte bs)) < arenaSpace a ->
  exists a', code_loop relocate a bs = Some a' /\ arena_extends a a' (flat_map escape_byte bs).
Proof.
  induction bs as [|c bs IH]; intros a H.
  - exists a. split; [reflexivity|]. unfold arena_extends. simpl. repeat split; auto; try lia.
  - cbn [flat_map] in H |- *. rewrite length_app in H.
    assert (Hp : exists a1,
      match escape_text c with
      | Some t => NeScratchFormat relocate a t
      | None => Some (NeScratchAddChar relocate a c)
      end = Some a1 /\ arena_extends a a1 (escape_byte c)).
    { pose proof (escape_text_byte c) as Ec.
      destruct (escape_text c) as [t|].
      - subst t. apply scratch_format_fit; [lia|].
        destruct (escape_byte_shape c) as [(x & E & _) | E]; rewrite E; simpl; lia.
      - rewrite Ec. eexists. split; [reflexivity|]. apply scratch_add_char_fit.
        rewrite Ec in H. simpl in H. lia. }
    destruct Hp as (a1 & E1 & X1). cbn [code_loop]. rewrite E1. cbn [obind].
    destruct (IH a1) as (a2 & E2 & X2).
    { rewrite (extends_space _ _ _ X1). lia. }
    exists a2. split; [exact E2|]. apply (extends_trans _ _ _ _ _ X1 X2).
Qed.

(** Property (string contents): when [stringCreate]'s [assert(j == len)]
    holds, the buffer holds the decoded bytes of the [strLen] bytes the
    loops read, followed by the NUL, and the Normal-mode text
    [stringToString] adds to the scratch arena is exactly these decoded
    bytes; [strLen] is the whole range when it is shorter than 2^31. *)
Theorem stringCreate_contents : forall r a,
  snd (stringCreate r) = so_size (fst (stringCreate r)) ->
  so_str (fst (stringCreate r)) = map Some (fill (str_span r)) ++ [Some 0] /\
  (exists a', stringToString relocate (fst (stringCreate r)) NSM_Normal a = Some a' /\
              arena_text a a' = fill (str_span r)) /\
  (Z.of_nat (List.length r) < 2 ^ 31 -> str_span r = r).
Proof.
  intros r a H. pose proof (assert_count r H) as Hc.
  split; [apply (stringCreate_buffer r Hc)|]. split; [|apply str_span_short].
  eexists. split; [reflexivity|].
  rewrite scratch_add_text. apply (so_bytes_buffer r Hc).
Qed.

(** Property (quoted form round trip): when the [assert] of
    [stringCreate] holds, the decoded string has no backslash and the
    quoted text fits the scratch arena's free space, the text
    [stringToString] adds in Code mode is the decoded bytes with [\n],
    [\r], [\t], [\b] escaped, between quotes, and [stringCreate] on that
    body builds the same string object. *)
Theorem stringToString_code_round_trip : forall r a,
  snd (stringCreate r) = so_size (fst (stringCreate r)) ->
  ~ In 92 (fill (str_span r)) ->
  Z.of_nat (List.length (flat_map escape_byte (fill (str_span r)))) + 2 < arenaSpace a ->
  Z.of_nat (List.length (flat_map escape_byte (fill (str_span r)))) < 2 ^ 31 ->
  exists a', stringToString relocate (fst (stringCreate r)) NSM_Code a = Some a' /\
    arena_text a a' = [QUOTE] ++ flat_map escape_byte (fill (str_span r)) ++ [QUOTE] /\
    fst (stringCreate (flat_map escape_byte (fill (str_span r)))) = fst (stringCreate r).
Proof.
  intros r a H Hbs Hroom Hlen. pose proof (assert_count r H) as Hc.
  set (body := flat_map escape_byte (fill (str_span r))) in *.
  destruct (scratch_format_fit a [QUOTE]) as (a1 & E1 & X1); [simpl; lia | simpl; lia |].
  destruct (code_loop_fit (fill (str_span r)) a1) as (a2 & E2 & X2).
  { rewrite (extends_space _ _ _ X1). simpl. fold body. lia. }
  destruct (scratch_format_fit a2 [QUOTE]) as (a3 & E3 & X3).
  { rewrite (extends_space _ _ _ X2), (extends_space _ _ _ X1). simpl. fold body. lia. }
  { simpl; lia. }
  exists a3. split; [| split].
  - unfold stringToString. rewrite E1. cbn [obind].
    rewrite (so_bytes_buffer r Hc), E2. cbn [obind]. exact E3.
  - apply extends_text. fold body in X2.
    exact (extends_trans _ _ _ _ _ (extends_trans _ _ _ _ _ X1 X2) X3).
  - destruct (escape_fill (fill (str_span r)) Hbs) as [F C]. fold body in F, C.
    assert (Hb : str_span body = body) by (apply str_span_short; exact Hlen).
    assert (Hc' : count_len (str_span body) = Z.of_nat (List.length (fill (str_span body))))
      by (rewrite Hb, F; exact C).
    destruct (stringCreate_buffer _ Hc') as [S1 B1].
    destruct (stringCreate_buffer _ Hc) as [S2 B2].
    rewrite Hb, F in S1, B1.
    destruct (fst (stringCreate body)) as [z1 b1].
    destruct (fst (stringCreate r)) as [z2 b2]. simpl in *. congruence.
Qed.

End Scratch.

(** Property (buffer bound): the number of bytes [stringCreate]'s second
    pass writes ([j]) never exceeds the length counted by its first pass,
    so the writes stay inside the [len + 1] byte buffer. *)
Theorem stringCreate_j_within_len : forall r,
  snd (stringCreate r) <= so_size (fst (stringCreate r)).
Proof.
  intros r. destruct (stringCreate_fields r) as [E S].
  rewrite E, S. apply fill_within_count.
Qed.

(** Property (when the assertion holds): for a range with no run of three
    backslashes, the two passes of [stringCreate] agree, i.e.
    [assert(j == len)] holds. *)
Theorem stringCreate_assert_holds : forall r,
  ~ (exists p q, r = p ++ [92; 92; 92] ++ q) ->
  snd (stringCreate r) = so_size (fst (stringCreate r)).
Proof.
  intros r H. destruct (stringCreate_fields r) as [E S].
  rewrite E, S. symmetry. apply count_fill_exact. apply no_triple_firstn. exact H.
Qed.

Lemma stringCreate_assert_holds_witness :
  ~ (exists p q, bytes_of_string "a\n\b" = p ++ [92; 92; 92] ++ q) /\
  snd (stringCreate (bytes_of_string "a\n\b"))
    = so_size (fst (stringCreate (bytes_of_string "a\n\b"))).
Proof.
  assert (H : ~ (exists p q, bytes_of_string "a\n\b" = p ++ [92; 92; 92] ++ q)).
  { intros (p & q & E).
    destruct p as [|x1 [|x2 [|x3 [|x4 [|x5 p]]]]]; cbn in E; try discriminate;
      apply (f_equal (@List.length Z)) in E; cbn [List.length] in E;
      rewrite length_app in E; cbn [List.length] in E; lia. }
  split; [exact H|]. exact (stringCreate_assert_holds _ H).
Defined.

Lemma stringCreate_contents_witness :
  snd (stringCreate (bytes_of_string "a\tb")) = so_size (fst (stringCreate (bytes_of_string "a\tb"))) /\
  so_str (fst (stringCreate (bytes_of_string "a\tb")))
    = map Some (fill (str_span (bytes_of_string "a\tb"))) ++ [Some 0] /\
  (exists a', stringToString (fun s _ : Z => s) (fst (stringCreate (bytes_of_string "a\tb")))
                NSM_Normal (mkArena 0 2 1 (-1) (fun _ => 0)) = Some a' /\
              arena_text (mkArena 0 2 1 (-1) (fun _ => 0)) a'
              = fill (str_span (bytes_of_string "a\tb"))) /\
  (Z.of_nat (List.length (bytes_of_string "a\tb")) < 2 ^ 31 ->
   str_span (bytes_of_string "a\tb") = bytes_of_string "a\tb").
Proof.
  assert (H : snd (stringCreate (bytes_of_string "a\tb"))
              = so_size (fst (stringCreate (bytes_of_string "a\tb")))) by (vm_compute; reflexivity).
  split; [exact H|].
  exact (stringCreate_contents (fun s _ : Z => s) (bytes_of_string "a\tb")
           (mkArena 0 2 1 (-1) (fun _ => 0)) H).
Defined.

Lemma stringToString_code_round_trip_witness :
  snd (stringCreate (bytes_of_string "a\nb")) = so_size (fst (stringCreate (bytes_of_string "a\nb"))) /\
  ~ In 92 (fill (str_span (bytes_of_string "a\nb"))) /\
  Z.of_nat (List.length (flat_map escape_byte (fill (str_span (bytes_of_string "a\nb"))))) + 2
    < arenaSpace (mkArena 0 64 8 (-1) (fun _ => 0)) /\
  Z.of_nat (List.length (flat_map escape_byte (fill (str_span (bytes_of_string "a\nb"))))) < 2 ^ 31 /\
  exists a', stringToString (fun s _ : Z => s) (fst (stringCreate (bytes_of_string "a\nb"))) NSM_Code
               (mkArena 0 64 8 (-1) (fun _ => 0)) = Some a' /\
    arena_text (mkArena 0 64 8 (-1) (fun _ => 0)) a'
    = [QUOTE] ++ flat_map escape_byte (fill (str_span (bytes_of_string "a\nb"))) ++ [QUOTE] /\
    fst (stringCreate (flat_map escape_byte (fill (str_span (bytes_of_string "a\nb")))))
    = fst (stringCreate (bytes_of_string "a\nb")).
Proof.
  assert (H1 : snd (stringCreate (bytes_of_string "a\nb"))
               = so_size (fst (stringCreate (bytes_of_string "a\nb")))) by (vm_compute; reflexivity).
  assert (H2 : ~ In 92 (fill (str_span (bytes_of_string "a\nb")))) by (vm_compute; intuition discriminate).
  assert (H3 : Z.of_nat (List.length (flat_map escape_byte (fill (str_span (bytes_of_string "a\nb"))))) + 2
    < arenaSpace (mkArena 0 64 8 (-1) (fun _ => 0))) by (vm_compute; reflexivity).
  assert (H4 : Z.of_nat (List.length (flat_map escape_byte (fill (str_span (bytes_of_string "a\nb")))))
    < 2 ^ 31) by (vm_compute; reflexivity).
  split; [exact H1|]. split; [exact H2|]. split; [exact H3|]. split; [exact H4|].
  exact (stringToString_code_round_trip (fun s _ : Z => s) _ _ H1 H2 H3 H4).
Defined.

End StringProps.

(** ** Arena formatting and alignment *)

Module ArenaExtras.
Import ArenaOps ArenaProps ArenaClaims.

Section Extras.
Variable relocate : Z -> Z -> Z.

(** Property (format allocation): [arenaFormatV] returns the old cursor
    and advances the cursor by the text length when the text fits, and by
    the length plus one (the NUL included) when the arena has to grow for
    a format that reads no argument; growing for a format with a
    conversion is undefined. *)
Theorem arenaFormatV_cursor : forall a txt conv,
  let len := Z.of_nat (List.length txt) in
  len < 2 ^ 31 - 1 ->
  (len < arenaSpace a ->
     exists a', arenaFormatV relocate a txt conv = Some (cursor a, a') /\
                cursor a' = cursor a + len) /\
  (arenaSpace a <= len -> conv = false ->
     exists a', arenaFormatV relocate a txt conv = Some (cursor a, a') /\
                cursor a' = cursor a + len + 1) /\
  (arenaSpace a <= len -> conv = true -> arenaFormatV relocate a txt conv = None).
Proof.
  intros a txt conv len Hlen. split; [| split].
  - intros Hfit.
    destruct (format_fields relocate a txt conv Hlen (or_introl Hfit)) as (a' & E & Hc & _).
    exists a'. split; [exact E |]. fold len in Hc.
    rewrite (proj2 (Z.ltb_lt _ _) Hfit) in Hc. lia.
  - intros Hgrow Hconv.
    destruct (format_fields relocate a txt conv Hlen (or_intror Hconv)) as (a' & E & Hc & _).
    exists a'. split; [exact E |]. fold len in Hc.
    rewrite (proj2 (Z.ltb_ge _ _) Hgrow) in Hc. exact Hc.
  - intros Hgrow ->. apply (format_conv_growth relocate); assumption.
Qed.

(** Property (consecutive formats): of two formats that read no
    argument, after a first one whose text fits the next starts on its
    NUL, so the two texts are contiguous; after a first one that grew the
    arena, the next one starts one byte later and the NUL stays, so a C
    string read from the first text stops there. *)
Theorem arenaFormatV_consecutive : forall a txt1 txt2,
  let len1 := Z.of_nat (List.length txt1) in
  len1 < 2 ^ 31 - 1 -> Z.of_nat (List.length txt2) < 2 ^ 31 - 1 ->
  exists p1 a1 p2 a2,
  arenaFormatV relocate a txt1 false = Some (p1, a1) /\
  arenaFormatV relocate a1 txt2 false = Some (p2, a2) /\
  (len1 < arenaSpace a ->
     p2 = p1 + len1 /\
     (forall i, (i < List.length txt1)%nat -> mem a2 (p1 + Z.of_nat i) = nth i txt1 0) /\
     (forall i, (i < List.length txt2)%nat -> mem a2 (p2 + Z.of_nat i) = nth i txt2 0)) /\
  (arenaSpace a <= len1 ->
     p2 = p1 + len1 + 1 /\
     (forall i, (i < List.length txt1)%nat -> mem a2 (p1 + Z.of_nat i) = nth i txt1 0) /\
     mem a2 (p1 + len1) = 0).
Proof.
  intros a txt1 txt2 len1 Hl1 Hl2.
  destruct (format_fields relocate a txt1 false Hl1 (or_intror eq_refl))
    as (a1 & F1 & A2 & _ & _ & A5 & A6 & _).
  destruct (format_fields relocate a1 txt2 false Hl2 (or_intror eq_refl))
    as (a2 & F2 & _ & _ & B4 & B5 & _ & _).
  exists (cursor a), a1, (cursor a1), a2.
  split; [exact F1 |]. split; [exact F2 |].
  fold len1 in A2, A6. split.
  - intros Hfit. rewrite (proj2 (Z.ltb_lt _ _) Hfit) in A2.
    split; [lia|]. split; [|exact B5].
    intros i Hi. rewrite B4 by lia. apply A5. exact Hi.
  - intros Hgrow. rewrite (proj2 (Z.ltb_ge _ _) Hgrow) in A2.
    split; [lia|]. split.
    + intros i Hi. rewrite B4 by lia. apply A5. exact Hi.
    + rewrite B4 by lia. exact A6.
Qed.

Lemma ens_start_mod : forall a n,
  (forall s k, relocate s k mod 16 = s mod 16) ->
  start (arenaEnsureSpace relocate a n) mod 16 = start a mod 16.
Proof.
  intros a n Hrel. unfold arenaEnsureSpace. destruct (_ <? _); simpl; auto.
Qed.

(** Property (aligned allocation): when relocation keeps addresses
    congruent modulo 16, the address [arenaAlignedAlloc] returns is a
    multiple of 16, at the cursor padded by [arenaAlign]. *)
Theorem arenaAlignedAlloc_aligned : forall a n,
  (forall s k, relocate s k mod 16 = s mod 16) ->
  0 <= start a + cursor a ->
  let '(p, a') := arenaAlignedAlloc relocate a n in
  (start a' + p) mod 16 = 0 /\
  p = cursor a + align_pad (start a) (cursor a) /\
  cursor a' = p + n.
Proof.
  intros a n Hrel Hpos. unfold arenaAlignedAlloc, arenaAlloc.
  cbn [fst snd cursor start]. rewrite ens_cursor.
  destruct (align_fields relocate a) as (Hc & _ & _). rewrite Hc.
  split; [|split; reflexivity].
  rewrite Z.add_mod, ens_start_mod, <- Z.add_mod by (auto || lia).
  assert (Hs : start (arenaAlign relocate a) mod 16 = start a mod 16).
  { unfold arenaAlign. destruct (_ =? 0); [reflexivity|]. simpl. apply ens_start_mod. exact Hrel. }
  rewrite Z.add_mod, Hs, <- Z.add_mod by lia.
  rewrite Z.add_assoc. unfold align_pad.
  rewrite Z.rem_mod_nonneg by lia.
  destruct (Z.eqb_spec ((start a + cursor a) mod 16) 0) as [E|E].
  - rewrite Z.add_0_r. exact E.
  - rewrite Z.add_mod, Zminus_mod, Z.mod_same, Z.mod_mod by lia.
    pose proof (Z.mod_pos_bound (start a + cursor a) 16 ltac:(lia)).
    replace ((start a + cursor a) mod 16 + (0 - (start a + cursor a) mod 16) mod 16) with 16.
    + reflexivity.
    + rewrite <- (Z.mod_unique (0 - (start a + cursor a) mod 16) 16 (-1) (16 - (start a + cursor a) mod 16)) by lia. lia.
Qed.

End Extras.

Lemma arenaFormatV_cursor_witness :
  let len := Z.of_nat (List.length (bytes_of_string "nerd")) in
  len < 2 ^ 31 - 1 /\
  (len < arenaSpace (mkArena 0 6 3 (-1) (fun _ => 0)) ->
     exists a', arenaFormatV (fun s _ : Z => s) (mkArena 0 6 3 (-1) (fun _ => 0))
                  (bytes_of_string "nerd") false = Some (3, a') /\ cursor a' = 3 + len) /\
  (arenaSpace (mkArena 0 6 3 (-1) (fun _ => 0)) <= len -> false = false ->
     exists a', arenaFormatV (fun s _ : Z => s) (mkArena 0 6 3 (-1) (fun _ => 0))
                  (bytes_of_string "nerd") false = Some (3, a') /\ cursor a' = 3 + len + 1) /\
  (arenaSpace (mkArena 0 6 3 (-1) (fun _ => 0)) <= len -> false = true ->
     arenaFormatV (fun s _ : Z => s) (mkArena 0 6 3 (-1) (fun _ => 0))
       (bytes_of_string "nerd") false = None).
Proof.
  intros len. split; [vm_compute; reflexivity |].
  exact (arenaFormatV_cursor (fun s _ : Z => s) (mkArena 0 6 3 (-1) (fun _ => 0))
           (bytes_of_string "nerd") false ltac:(vm_compute; reflexivity)).
Defined.

Lemma arenaFormatV_consecutive_witness :
  Z.of_nat (List.length (bytes_of_string "abcd")) < 2 ^ 31 - 1 /\
  Z.of_nat (List.length (bytes_of_string "e")) < 2 ^ 31 - 1 /\
  exists p1 a1 p2 a2,
  arenaFormatV (fun s _ : Z => s) (mkArena 0 8 4 (-1) (fun _ => 0))
    (bytes_of_string "abcd") false = Some (p1, a1) /\
  arenaFormatV (fun s _ : Z => s) a1 (bytes_of_string "e") false = Some (p2, a2) /\
  (4 < arenaSpace (mkArena 0 8 4 (-1) (fun _ => 0)) ->
     p2 = p1 + 4 /\
     (forall i, (i < 4)%nat -> mem a2 (p1 + Z.of_nat i) = nth i (bytes_of_string "abcd") 0) /\
     (forall i, (i < 1)%nat -> mem a2 (p2 + Z.of_nat i) = nth i (bytes_of_string "e") 0)) /\
  (arenaSpace (mkArena 0 8 4 (-1) (fun _ => 0)) <= 4 ->
     p2 = p1 + 4 + 1 /\
     (forall i, (i < 4)%nat -> mem a2 (p1 + Z.of_nat i) = nth i (bytes_of_string "abcd") 0) /\
     mem a2 (p1 + 4) = 0).
Proof.
  split; [vm_compute; reflexivity |]. split; [vm_compute; reflexivity |].
  exact (arenaFormatV_consecutive (fun s _ : Z => s) (mkArena 0 8 4 (-1) (fun _ => 0))
           (bytes_of_string "abcd") (bytes_of_string "e")
           ltac:(vm_compute; reflexivity) ltac:(vm_compute; reflexivity)).
Defined.

Lemma arenaAlignedAlloc_aligned_witness :
  (forall s k, (fun s _ : Z => s) s k mod 16 = s mod 16) /\ 0 <= 32 + 5 /\
  let '(p, a') := arenaAlignedAlloc (fun s _ : Z => s) (mkArena 32 64 5 (-1) (fun _ => 0)) 40 in
  (start a' + p) mod 16 = 0 /\ p = 5 + align_pad 32 5 /\ cursor a' = p + 40.
Proof.
  split; [reflexivity|]. split; [lia|].
  exact (arenaAlignedAlloc_aligned (fun s _ : Z => s) (mkArena 32 64 5 (-1) (fun _ => 0)) 40
           (fun s k => eq_refl) ltac:(simpl; lia)).
Defined.

End ArenaExtras.
